(** * StockaDoodle IMS: the inventory ledger core

    A shallow embedding of the sequence-counter service, the base-document
    save hook, the stock-batch ledger and the read-only reports of
    [api_server/core/report_generator.py], with the properties the
    specification states about them.

    Conventions.  Python [int] is [Z].  A [date] is the [Z] of its
    ordinal (whole days), [date + timedelta(days=n)] is [d + n]; a
    [datetime] is the [Z] of its microseconds since the start of day 0,
    so the date [d] begins at the instant [midnight d].  Amounts of money
    are exact rationals [Q], and [round(x, 2)] of an amount is
    round-half-even to two decimals.  A Python [float] is the rational it
    stands for: every [float] operation is the exact operation followed
    by [binary64], rounding to the nearest number with 53 significant
    bits, ties to even.
    MongoDB / SQL collections keyed by an integer id are [gmap Z _],
    the counters collection is [gmap string Z]. *)

From Stdlib Require Import ZArith QArith Qround Qabs Qpower Lqa String Ascii List Lia Sorting.Sorted.
From Stdlib Require Import DecimalString.
From stdpp Require Import gmap strings list fin_maps sorting.

Local Open Scope string_scope.
Local Open Scope list_scope.
Local Open Scope Z_scope.

(** ** Python's [sum] *)

(** [sum(xs)] starts from the integer [0] and adds left to right. *)
Definition py_sum (xs : list Z) : Z := fold_left Z.add xs 0.

Definition py_sumQ (xs : list Q) : Q := fold_left Qplus xs (0 # 1)%Q.

(** ** The sequence allocator *)

Module Counters.

(** [counters_init.py]: the seeded counter documents [{_id, seq}]. *)
Definition initial_counters : list (string * Z) :=
  [ ("user_id", 1000);
    ("product_id", 0);
    ("category_id", 0);
    ("sale_id", 0);
    ("stockbatch_id", 0);
    ("productlog_id", 0);
    ("apiactivitylog_id", 0);
    ("retailermetrics_id", 0);
    ("saleitem_id", 0) ].

(** The seeding loop: [update_one({_id}, {$setOnInsert: counter}, upsert=True)]
    inserts a counter only where none exists. *)
Definition seed_one (cs : gmap string Z) (c : string * Z) : gmap string Z :=
  match cs !! c.1 with
  | Some _ => cs
  | None => <[c.1 := c.2]> cs
  end.

Definition seed_counters (cs : gmap string Z) : gmap string Z :=
  fold_left seed_one initial_counters cs.

(** The value a counter document is created with when it is missing:
    1000 for the user-id counter, 0 otherwise. *)
Definition initial_seq (name : string) : Z :=
  default 0 ((list_to_map initial_counters : gmap string Z) !! name).

(** The current value of a counter, a missing document counting as its
    initial value. *)
Definition counter_value (name : string) (cs : gmap string Z) : Z :=
  default (initial_seq name) (cs !! name).

Inductive storage_error := StorageUnavailable.

(** Modelled from the spec: [utils/counters.py] ([get_next_sequence]) is
    not part of the sources.  Section 4.1: one atomic "find the Counter
    document for [collection_name], increment [seq], return the new value"
    step; a missing counter is created first with its initial value; when
    the store cannot be reached the call fails with [StorageUnavailable]
    and nothing is written. *)
Definition get_next_sequence (available : bool) (name : string)
    (cs : gmap string Z) : (storage_error + Z) * gmap string Z :=
  if available then
    let new := counter_value name cs + 1 in
    (inr new, <[name := new]> cs)
  else (inl StorageUnavailable, cs).

(** *** Concurrent callers

    Every call is one atomic step at the store, so an execution of [N]
    concurrent callers is a linearisation: the callers (numbered from 0)
    in the order in which the store serves them. *)

Definition call_result : Type := nat * (storage_error + Z).

Fixpoint run_calls (avail : nat → bool) (name : string)
    (schedule : list nat) (cs : gmap string Z)
    : list call_result * gmap string Z :=
  match schedule with
  | [] => ([], cs)
  | caller :: rest =>
      let '(r, cs1) := get_next_sequence (avail caller) name cs in
      let '(rs, cs2) := run_calls avail name rest cs1 in
      ((caller, r) :: rs, cs2)
  end.

(** The ids handed out, in the order the store served the calls. *)
Fixpoint returned_ids (rs : list call_result) : list Z :=
  match rs with
  | [] => []
  | (_, inr v) :: rest => v :: returned_ids rest
  | (_, inl _) :: rest => returned_ids rest
  end.

(** The id a given caller received, if its call succeeded. *)
Fixpoint id_of_caller (caller : nat) (rs : list call_result) : option Z :=
  match rs with
  | [] => None
  | (c, r) :: rest =>
      if decide (c = caller)
      then match r with inr v => Some v | inl _ => None end
      else id_of_caller caller rest
  end.

End Counters.

(** ** The base document ([api_server/models/base.py]) *)

Module Base.

(** A document as [BaseDocument.save] sees it: the primary key [id]
    ([None] until assigned), the class name ([self.__class__.__name__]),
    the collection mongoengine keeps for the class ([_meta['collection']]:
    the name the class declares, or the one mongoengine derives from the
    class name), and the remaining fields. *)
Record document := {
  doc_id : option Z;
  class_name : string;
  storage_collection : string;
  payload : gmap string string
}.

Record database := {
  counters : gmap string Z;
  collections : gmap string (gmap Z document)
}.

(** [str.lower()] on the ASCII letters of a class name. *)
Definition lower_ascii (c : ascii) : ascii :=
  let n := nat_of_ascii c in
  if ((65 <=? n) && (n <=? 90))%nat then ascii_of_nat (n + 32) else c.

Fixpoint lower (s : string) : string :=
  match s with
  | EmptyString => EmptyString
  | String c rest => String (lower_ascii c) (lower rest)
  end.

(** [getattr(self, 'meta', {}).get('collection', self.__class__.__name__.lower())].
    The document metaclass of mongoengine removes the [meta] attribute of
    a document class (its content goes to [_meta]), so [getattr] finds no
    [meta] on the instance, takes [{}], and [.get] falls to its default:
    the counter name is the lower-cased class name whatever collection
    the class declares. *)
Definition collection_name (d : document) : string :=
  lower (class_name d).

Definition set_id (d : document) (i : Z) : document :=
  {| doc_id := Some i; class_name := class_name d;
     storage_collection := storage_collection d; payload := payload d |}.

(** [super().save()] is mongoengine's [Document.save], library code
    outside the repository.  It is modelled by what its documentation
    states: the document is written to the collection of its class under
    its primary key, and no other collection is touched. *)
Definition persist (d : document) (db : database) : database :=
  match doc_id d with
  | Some i =>
      let coll := default ∅ (collections db !! storage_collection d) in
      {| counters := counters db;
         collections := <[storage_collection d := <[i := d]> coll]> (collections db) |}
  | None => db
  end.

(** [BaseDocument.save]: an id is drawn from the allocator only when the
    document has none; the call returns the document as it is after the
    call.  An allocator failure propagates and nothing is written. *)
Definition save (available : bool) (d : document) (db : database)
    : (Counters.storage_error + document) * database :=
  match doc_id d with
  | None =>
      match Counters.get_next_sequence available (collection_name d) (counters db) with
      | (inr i, cs) =>
          let d' := set_id d i in
          (inr d', persist d' {| counters := cs; collections := collections db |})
      | (inl e, _) => (inl e, db)
      end
  | Some _ => (inr d, persist d db)
  end.

(** Saving the same object [n] times in a row. *)
Fixpoint save_n (n : nat) (d : document) (db : database) : document * database :=
  match n with
  | O => (d, db)
  | S k =>
      match save true d db with
      | (inr d', db') => save_n k d' db'
      | (inl _, db') => (d, db')
      end
  end.

End Base.

(** ** The batch ledger *)

Module Ledger.

(** Modelled from the spec: the model classes ([models/product.py],
    [models/stock_batch.py], [models/product_log.py]) are not part of the
    sources; the records follow the data model of section 3. *)
Record Product := {
  prod_id : Z;
  name : string;
  category_id : Z;
  price : Q;
  min_stock_level : Z;
  stock_level : Z
}.

Record StockBatch := {
  batch_id : Z;
  product_id : Z;
  quantity : Z;
  expiration_date : option Z;
  created_at : Z;
  reason : string
}.

Inductive action := ADD_BATCH | DISPOSE | DELETE_BATCH.

Record ProductLog := {
  log_id : Z;
  log_product_id : Z;
  user_id : Z;
  action_type : action;
  log_time : Z;
  notes : string
}.

(** All state lives in the store. *)
Record store := {
  counters : gmap string Z;
  products : gmap Z Product;
  batches : gmap Z StockBatch;
  logs : list ProductLog
}.

(** What a request carries besides its arguments: whether the store can
    be reached, the acting user and the clock. *)
Record request := {
  available : bool;
  actor : Z;
  now : Z
}.

Inductive ledger_error :=
  | StorageUnavailable
  | ProductNotFound
  | NotFound
  | InvalidQuantity
  | InsufficientQuantity
  | BatchNotEmpty
  | ConsistencyViolation.

Inductive result (A : Type) :=
  | Ok (a : A)
  | Err (e : ledger_error).
Arguments Ok {A} a.
Arguments Err {A} e.

(** The counters of [counters_init.py] the ledger draws from. *)
Definition batch_counter : string := "stockbatch_id".
Definition log_counter : string := "productlog_id".

(** What one batch contributes to the stock of product [pid]. *)
Definition contribution (pid : Z) (b : StockBatch) : Z :=
  if decide (product_id b = pid) then quantity b else 0.

(** [Σ batch.quantity] over the batches of product [pid] in the store. *)
Definition stock_sum (pid : Z) (bs : gmap Z StockBatch) : Z :=
  map_fold (λ _ b acc, contribution pid b + acc) 0 bs.

(** Modelled from the spec: the defensive check of section 4.2 for one
    product, [Product.stock_level == Σ batch.quantity]. *)
Definition check_invariant (pid : Z) (s : store) : bool :=
  match products s !! pid with
  | Some p => bool_decide (stock_level p = stock_sum pid (batches s))
  | None => true
  end.

(** Modelled from the spec: all-or-nothing (sections 4.2 and 7).  The
    candidate state [s'] is committed only when the check passes, otherwise
    the call is rejected with [ConsistencyViolation] and [s] stays. *)
Definition commit {A} (pid : Z) (a : A) (s s' : store) : result A * store :=
  if check_invariant pid s' then (Ok a, s') else (Err ConsistencyViolation, s).

Definition set_stock (p : Product) (v : Z) : Product :=
  {| prod_id := prod_id p; name := name p; category_id := category_id p;
     price := price p; min_stock_level := min_stock_level p; stock_level := v |}.

Definition set_quantity (b : StockBatch) (v : Z) : StockBatch :=
  {| batch_id := batch_id b; product_id := product_id b; quantity := v;
     expiration_date := expiration_date b; created_at := created_at b;
     reason := reason b |}.

(** Modelled from the spec: appending a ProductLog entry (section 3), its
    id drawn from the allocator. *)
Definition append_log (rq : request) (pid : Z) (a : action) (note : string)
    (cs : gmap string Z) (ls : list ProductLog)
    : gmap string Z * list ProductLog :=
  match Counters.get_next_sequence true log_counter cs with
  | (inr i, cs') =>
      (cs', (ls ++ [ {| log_id := i; log_product_id := pid; user_id := actor rq;
                       action_type := a; log_time := now rq; notes := note |} ])%list)
  | (inl _, _) => (cs, ls)
  end.

(** Modelled from the spec: the server-side ledger operations are not part
    of the sources (only their callers in the desktop pages are).
    Section 4.2, [add_batch]: fails with [ProductNotFound] if the product
    does not exist and with [InvalidQuantity] if [quantity <= 0]; otherwise
    allocates an id, persists the batch, increments [stock_level] by
    [quantity] and appends an [ADD_BATCH] log entry. *)
Definition add_batch (rq : request) (pid q : Z) (exp : option Z)
    (why : string) (s : store) : result StockBatch * store :=
  if negb (available rq) then (Err StorageUnavailable, s) else
  match products s !! pid with
  | None => (Err ProductNotFound, s)
  | Some p =>
      if q <=? 0 then (Err InvalidQuantity, s) else
      match Counters.get_next_sequence true batch_counter (counters s) with
      | (inl _, _) => (Err StorageUnavailable, s)
      | (inr i, cs1) =>
          let b := {| batch_id := i; product_id := pid; quantity := q;
                      expiration_date := exp; created_at := now rq;
                      reason := why |} in
          let '(cs2, ls) := append_log rq pid ADD_BATCH why cs1 (logs s) in
          commit pid b s
            {| counters := cs2;
               products := <[pid := set_stock p (stock_level p + q)]> (products s);
               batches := <[i := b]> (batches s);
               logs := ls |}
      end
  end.

(** Modelled from the spec: section 4.2, [dispose]: decrements the named
    batch by [quantity > 0]; fails with [InsufficientQuantity] if
    [quantity] exceeds the batch's current quantity; on success decrements
    the product's [stock_level] by the same amount and appends a [DISPOSE]
    log entry. *)
Definition dispose (rq : request) (bid q : Z) (why : string) (s : store)
    : result StockBatch * store :=
  if negb (available rq) then (Err StorageUnavailable, s) else
  match batches s !! bid with
  | None => (Err NotFound, s)
  | Some b =>
      if q <=? 0 then (Err InvalidQuantity, s) else
      if quantity b <? q then (Err InsufficientQuantity, s) else
      match products s !! product_id b with
      | None => (Err NotFound, s)
      | Some p =>
          let b' := set_quantity b (quantity b - q) in
          let '(cs, ls) := append_log rq (product_id b) DISPOSE why (counters s) (logs s) in
          commit (product_id b) b' s
            {| counters := cs;
               products := <[product_id b := set_stock p (stock_level p - q)]> (products s);
               batches := <[bid := b']> (batches s);
               logs := ls |}
      end
  end.

(** Modelled from the spec: section 4.2, [delete_batch]: fails with
    [BatchNotEmpty] if the quantity is above 0; otherwise removes the batch
    and appends a [DELETE_BATCH] log entry. *)
Definition delete_batch (rq : request) (bid : Z) (s : store)
    : result unit * store :=
  if negb (available rq) then (Err StorageUnavailable, s) else
  match batches s !! bid with
  | None => (Err NotFound, s)
  | Some b =>
      if 0 <? quantity b then (Err BatchNotEmpty, s) else
      let '(cs, ls) := append_log rq (product_id b) DELETE_BATCH "" (counters s) (logs s) in
      commit (product_id b) tt s
        {| counters := cs;
           products := products s;
           batches := delete bid (batches s);
           logs := ls |}
  end.

(** A mutating call, and runs of them. *)
Inductive op :=
  | AddBatch (pid q : Z) (exp : option Z) (why : string)
  | Dispose (bid q : Z) (why : string)
  | DeleteBatch (bid : Z).

Definition outcome : Type := option ledger_error.

Definition outcome_of {A} (r : result A) : outcome :=
  match r with Ok _ => None | Err e => Some e end.

Definition apply_op (rq : request) (o : op) (s : store) : outcome * store :=
  match o with
  | AddBatch pid q exp why =>
      let '(r, s') := add_batch rq pid q exp why s in (outcome_of r, s')
  | Dispose bid q why =>
      let '(r, s') := dispose rq bid q why s in (outcome_of r, s')
  | DeleteBatch bid =>
      let '(r, s') := delete_batch rq bid s in (outcome_of r, s')
  end.

Fixpoint run (calls : list (request * op)) (s : store) : list outcome * store :=
  match calls with
  | [] => ([], s)
  | (rq, o) :: rest =>
      let '(r, s1) := apply_op rq o s in
      let '(rs, s2) := run rest s1 in
      (r :: rs, s2)
  end.

(** The ledger's central invariant, for every product of the store. *)
Definition stock_consistent (s : store) : Prop :=
  ∀ pid p, products s !! pid = Some p → stock_level p = stock_sum pid (batches s).

(** Batch ids were handed out by the allocator: none lies above the
    counter. *)
Definition ids_allocated (s : store) : Prop :=
  ∀ bid b, batches s !! bid = Some b →
    bid ≤ Counters.counter_value batch_counter (counters s).

Definition ledger_ok (s : store) : Prop := stock_consistent s ∧ ids_allocated s.

(** No batch holds a negative quantity. *)
Definition quantities_nonneg (s : store) : Prop :=
  ∀ bid b, batches s !! bid = Some b → 0 ≤ quantity b.

End Ledger.

(** ** The product detail page ([desktop_app/ui/pages/products/product_detail.py]) *)

Module ProductDetail.
Import Ledger.

(** A [QSpinBox]: setting a bound keeps the range valid and the value
    inside it.  The widget holds C [int]s: the functions below describe
    it for arguments from -2^31 to 2^31 - 1 (beyond them the binding
    raises [OverflowError] and no dialog is built). *)
Record spin_box := {
  minimum : Z;
  maximum : Z;
  value : Z
}.

Definition bound (lo v hi : Z) : Z := Z.max lo (Z.min v hi).

Definition setRange (lo hi : Z) (sb : spin_box) : spin_box :=
  {| minimum := lo; maximum := Z.max lo hi; value := bound lo (value sb) (Z.max lo hi) |}.

Definition QSpinBox : spin_box := {| minimum := 0; maximum := 99; value := 0 |}.

Definition setMinimum (m : Z) (sb : spin_box) : spin_box :=
  setRange m (Z.max m (maximum sb)) sb.

Definition setMaximum (m : Z) (sb : spin_box) : spin_box :=
  setRange (Z.min (minimum sb) m) m sb.

Definition setValue (v : Z) (sb : spin_box) : spin_box :=
  {| minimum := minimum sb; maximum := maximum sb;
     value := bound (minimum sb) v (maximum sb) |}.

(** [DisposeBatchDialog.init_ui]: the quantity input. *)
Definition quantity_input (available_quantity : Z) : spin_box :=
  setValue 1 (setMaximum available_quantity (setMinimum 1 QSpinBox)).

(** [DisposeBatchDialog.get_data()['quantity']] after the user entered
    [typed]. *)
Definition get_data_quantity (available_quantity typed : Z) : Z :=
  value (setValue typed (quantity_input available_quantity)).

Record buttons := {
  edit_batch_btn : bool;
  dispose_batch_btn : bool;
  delete_batch_btn : bool
}.

(** [ProductDetailPage.on_batch_selected] *)
Definition on_batch_selected (batch : option StockBatch) : buttons :=
  match batch with
  | Some b =>
      {| edit_batch_btn := true;
         dispose_batch_btn := 0 <? quantity b;
         delete_batch_btn := quantity b =? 0 |}
  | None =>
      {| edit_batch_btn := false; dispose_batch_btn := false;
         delete_batch_btn := false |}
  end.

Inductive notification :=
  | warning (msg : string)
  | error (msg : string)
  | success (msg : string).

(** [str(e)] of a failed API call. *)
Definition describe (e : ledger_error) : string :=
  match e with
  | StorageUnavailable => "StorageUnavailable"
  | ProductNotFound => "ProductNotFound"
  | NotFound => "NotFound"
  | InvalidQuantity => "InvalidQuantity"
  | InsufficientQuantity => "InsufficientQuantity"
  | BatchNotEmpty => "BatchNotEmpty"
  | ConsistencyViolation => "ConsistencyViolation"
  end.

(** [ProductDetailPage.delete_batch]: [selected] is the batch chosen in
    the combo box, [confirmed] whether the confirmation dialog was
    accepted with the right text; the API call is the ledger's
    [delete_batch]. *)
Definition delete_batch (selected : option StockBatch) (confirmed : bool)
    (rq : request) (s : store) : list notification * store :=
  match selected with
  | None => ([warning "Please select a batch to delete."], s)
  | Some batch =>
      if 0 <? quantity batch then
        ([error "Cannot delete batch with remaining stock. Please dispose of all stock first."], s)
      else if confirmed then
        match Ledger.delete_batch rq (batch_id batch) s with
        | (Ok _, s') => ([success "Batch deleted successfully!"], s')
        | (Err e, s') => ([error ("Failed to delete batch: " ++ describe e)%string], s')
        end
      else ([], s)
  end.

End ProductDetail.

(** ** Rounding for presentation *)

(** Round-half-even to an integer. *)
Definition round_half_even (x : Q) : Z :=
  let f := Qfloor x in
  match Qcompare (x - inject_Z f) (1 # 2) with
  | Lt => f
  | Gt => f + 1
  | Eq => if Z.even f then f else f + 1
  end.

(** [round(x, 2)] *)
Definition round2 (x : Q) : Q :=
  (inject_Z (round_half_even (x * inject_Z 100)) / inject_Z 100)%Q.

(** ** Python's [float] *)

Definition pow2 (e : Z) : Q := ((2 # 1) ^ e)%Q.

(** The binary exponent of a positive rational: the [e] with
    [2^e <= x < 2^(e+1)]. *)
Definition exponent (x : Q) : Z :=
  let e := Z.log2 (Qnum x) - Z.log2 (Z.pos (Qden x)) in
  if Qle_bool (pow2 e) x then e else e - 1.

(** The binary64 number nearest to [x], ties to even: 53 significant
    bits, and below the exponent -1022 the fixed spacing [2^-1074] of the
    subnormal numbers.  Binary64 ends below [2^1024], where Python
    raises [OverflowError] for an [int] quotient; quotients of stored
    (64-bit) integers and of their sums stay far from it, and [binary64]
    has no such end. *)
Definition binary64 (x : Q) : Q :=
  let q := pow2 (Z.max (exponent (Qabs x)) (-1022) - 52) in
  (inject_Z (round_half_even (x / q)) * q)%Q.

(** [round(x, 2)] of a [float]: the value is rounded half-even to two
    decimals and the result is again a [float], the one nearest to that
    decimal number. *)
Definition round2_float (x : Q) : Q := binary64 (round2 x).

(** [x * 100] on a [float]. *)
Definition times_100 (x : Q) : Q := binary64 (x * inject_Z 100).

(** ** Dates and instants *)

Definition microseconds_per_day : Z := 86400000000.

(** The instant a date stands for where it is compared with a
    [datetime] column: 00:00:00 of that day. *)
Definition midnight (d : Z) : Z := d * microseconds_per_day.

(** ** The reports ([api_server/core/report_generator.py]) *)

Module ReportGenerator.
Import Ledger.

(** Modelled from the spec: the model classes the report imports
    ([models/user.py], [models/sale.py], [models/category.py]) are not part
    of the sources; the records carry the columns the reports read. *)
Record User := {
  uid : Z;
  full_name : string;
  role : string
}.

Record Sale := {
  sale_id : Z;
  sale_created_at : Z;
  retailer_id : Z
}.

Record SaleItem := {
  item_sale_id : Z;
  item_product_id : Z;
  item_quantity : Z;
  line_total : Q
}.

(** A product with its [stock_batches] relationship loaded, and a category
    with its [products]. *)
Record ProductRow := {
  product : Product;
  stock_batches : list StockBatch
}.

Record Category := {
  cat_id : Z;
  cat_name : string;
  cat_products : list ProductRow
}.

Record session := {
  sales : list Sale;
  sale_items : list SaleItem;
  product_table : list Product;
  users : list User
}.

(** *** Report 1: sales performance *)

(** One row of [sales_query.all()]. *)
Record result_row := {
  r_sale_id : Z;
  r_created_at : Z;
  r_product_name : string;
  r_quantity : Z;
  r_line_total : Q;
  r_retailer_name : string
}.

Definition newest_first (a b : result_row) : Prop :=
  r_created_at b ≤ r_created_at a.

Global Instance newest_first_dec (a b : result_row) : Decision (newest_first a b).
Proof. unfold newest_first. apply _. Defined.

(** The joins, the two date filters and [order_by(Sale.created_at.desc())].
    [created_at] is a [datetime] and the bounds are [date]s: each bound
    is compared as its midnight, so of the end date only the very first
    instant is inside the range.  Rows with the same [created_at] come in
    an order the database chooses; the stable merge sort stands for one
    such choice. *)
Definition sales_query (db : session) (start_date end_date : Z) : list result_row :=
  merge_sort newest_first
    (filter (λ r, midnight start_date ≤ r_created_at r
                  ∧ r_created_at r ≤ midnight end_date)
       (s ← sales db;
        i ← filter (λ i, sale_id s = item_sale_id i) (sale_items db);
        p ← filter (λ p, item_product_id i = prod_id p) (product_table db);
        u ← filter (λ u, retailer_id s = uid u) (users db);
        [ {| r_sale_id := sale_id s; r_created_at := sale_created_at s;
             r_product_name := name p; r_quantity := item_quantity i;
             r_line_total := line_total i; r_retailer_name := full_name u |} ])).

Record sale_entry := {
  e_sale_id : Z;
  e_date : Z;
  e_product_name : string;
  quantity_sold : Z;
  total_price : Q;
  e_retailer_name : string
}.

Record sales_summary := {
  total_income : Q;
  total_quantity_sold : Z;
  total_transactions : nat
}.

Record sales_report := {
  report_id : Z;
  report_name : string;
  date_range : Z * Z;
  sales_rows : list sale_entry;
  summary : sales_summary
}.

Definition entry_of (r : result_row) : sale_entry :=
  {| e_sale_id := r_sale_id r; e_date := r_created_at r;
     e_product_name := r_product_name r; quantity_sold := r_quantity r;
     total_price := r_line_total r; e_retailer_name := r_retailer_name r |}.

(** [len(set(xs))] *)
Definition distinct_count (xs : list Z) : nat :=
  size (list_to_set xs : gset Z).

Definition sales_performance_report (today : Z) (db : session)
    (start_date end_date : option Z) : sales_report :=
  let start_date := match start_date with Some d => d | None => today - 30 end in
  let end_date := match end_date with Some d => d | None => today end in
  let results := sales_query db start_date end_date in
  let total_income := py_sumQ (map r_line_total results) in
  let total_quantity := py_sum (map r_quantity results) in
  {| report_id := 1;
     report_name := "Sales Performance Report";
     date_range := (start_date, end_date);
     sales_rows := map entry_of results;
     summary :=
       {| total_income := round2 total_income;
          total_quantity_sold := total_quantity;
          total_transactions := distinct_count (map r_sale_id results) |} |}.

(** *** Report 6: detailed transactions *)

Definition detailed_sales_transaction_report (today : Z) (db : session)
    (start_date end_date : option Z) : sales_report :=
  sales_performance_report today db start_date end_date.

(** *** Report 2: category distribution *)

(** Python's [/] on two [int]s: [ZeroDivisionError] on a zero divisor,
    else the [float] nearest to the quotient. *)
Definition truediv (a b : Z) : option Q :=
  if b =? 0 then None else Some (binary64 (inject_Z a / inject_Z b)).

(** [sum(sum(batch.quantity for batch in product.stock_batches)
         for product in category.products)] *)
Definition category_stock (c : Category) : Z :=
  py_sum (map (λ p, py_sum (map quantity (stock_batches p))) (cat_products c)).

(** The same double sum over all categories, as one flat generator. *)
Definition total_stock (categories : list Category) : Z :=
  py_sum (c ← categories; p ← cat_products c; [py_sum (map quantity (stock_batches p))]).

(** [(category_stock / total_stock * 100) if total_stock > 0 else 0] *)
Definition percentage (cat_stock total : Z) : option Q :=
  if 0 <? total then
    q ← truediv cat_stock total; Some (times_100 q)
  else Some (inject_Z 0).

Record category_entry := {
  c_category_id : Z;
  c_category_name : string;
  number_of_products : nat;
  total_stock_quantity : Z;
  percentage_share : Q
}.

Record category_report := {
  categories_rows : list category_entry;
  total_categories : nat;
  summary_total_stock : Z
}.

Definition category_entry_of (total : Z) (c : Category) : option category_entry :=
  pct ← percentage (category_stock c) total;
  Some {| c_category_id := cat_id c; c_category_name := cat_name c;
          number_of_products := length (cat_products c);
          total_stock_quantity := category_stock c;
          percentage_share := round2_float pct |}.

(** [None] stands for the report raising [ZeroDivisionError]. *)
Definition category_distribution_report (categories : list Category)
    : option category_report :=
  let total := total_stock categories in
  rows ← mapM (category_entry_of total) categories;
  Some {| categories_rows := rows;
          total_categories := length categories;
          summary_total_stock := total |}.

(** *** Report 4: low stock and expiration alerts *)

(** The low stock check. *)
Definition low_stock_status (stock min_level : Z) : list string :=
  if stock <? min_level then
    if stock =? 0 then ["OUT_OF_STOCK"] else ["LOW_STOCK"]
  else [].

Definition expiring (cutoff_date : Z) (b : StockBatch) : Prop :=
  match expiration_date b with
  | Some d => d ≤ cutoff_date ∧ 0 < quantity b
  | None => False
  end.

Global Instance expiring_dec cutoff_date b : Decision (expiring cutoff_date b).
Proof. unfold expiring. destruct (expiration_date b); apply _. Defined.

(** The expiration check's list comprehension. *)
Definition expiring_batches (cutoff_date : Z) (p : ProductRow) : list StockBatch :=
  filter (expiring cutoff_date) (stock_batches p).

(** [min(b.expiration_date for b in expiring_batches)], [None] when there
    is no expiring batch. *)
Definition earliest_expiry (bs : list StockBatch) : option Z :=
  match omap expiration_date bs with
  | [] => None
  | d :: ds => Some (fold_left Z.min ds d)
  end.

Definition alert_status (cutoff_date : Z) (p : ProductRow) : list string :=
  low_stock_status (stock_level (product p)) (min_stock_level (product p))
  ++ (match expiring_batches cutoff_date p with
      | [] => []
      | _ :: _ => ["EXPIRING_SOON"]
      end).

(** [', '.join(xs)] *)
Fixpoint join (sep : string) (xs : list string) : string :=
  match xs with
  | [] => ""
  | [x] => x
  | x :: rest => (x ++ sep ++ join sep rest)%string
  end.

Record alert := {
  a_product_id : Z;
  a_product_name : string;
  current_stock : Z;
  a_min_stock_level : Z;
  a_expiration_date : option Z;
  a_alert_status : string;
  severity : string
}.

Definition severity_of (tags : list string) : string :=
  if decide ("OUT_OF_STOCK" ∈ tags) then "CRITICAL" else "WARNING".

(** The body of the loop over the products: the rows it appends. *)
Definition alert_rows (cutoff_date : Z) (p : ProductRow) : list alert :=
  let tags := alert_status cutoff_date p in
  match tags with
  | [] => []
  | _ :: _ =>
      [ {| a_product_id := prod_id (product p);
           a_product_name := name (product p);
           current_stock := stock_level (product p);
           a_min_stock_level := min_stock_level (product p);
           a_expiration_date :=
             match expiring_batches cutoff_date p with
             | [] => None
             | bs => earliest_expiry bs
             end;
           a_alert_status := join ", " tags;
           severity := severity_of tags |} ]
  end.

Record alert_summary := {
  total_alerts : nat;
  critical_alerts : nat;
  warning_alerts : nat
}.

Record alert_report := {
  alerts : list alert;
  alerts_summary : alert_summary
}.

Definition low_stock_and_expiration_alert_report (today : Z)
    (products : list ProductRow) (days_ahead : Z) : alert_report :=
  let cutoff_date := today + days_ahead in
  let alerts := p ← products; alert_rows cutoff_date p in
  {| alerts := alerts;
     alerts_summary :=
       {| total_alerts := length alerts;
          critical_alerts := length (filter (λ a, severity a = "CRITICAL") alerts);
          warning_alerts := length (filter (λ a, severity a = "WARNING") alerts) |} |}.

End ReportGenerator.

(** ** The remaining reports ([api_server/core/report_generator.py]) *)

Module Reports.
Import Ledger ReportGenerator.

(** Modelled from the spec: [models/retailer_metrics.py] is not part of
    the sources; the per-retailer counters of section 3. *)
Record RetailerMetrics := {
  metrics_retailer_id : Z;
  daily_quota : Z;
  sales_today : Z;
  current_streak : Z;
  total_sales : Z
}.

(** A user row with the two further columns reports 3 and 7 read. *)
Record Account := {
  user : User;
  username : string;
  user_image : option string
}.

(** *** Report 3: retailer performance *)

Record retailer_entry := {
  retailer_name : string;
  re_user_id : Z;
  re_daily_quota : Z;
  current_sales : Z;
  quota_progress : Q;
  streak_count : Z;
  re_total_sales : Z;
  re_has_profile_pic : bool
}.

Record retailer_summary := {
  total_retailers : nat;
  active_today : nat
}.

Record retailer_report := {
  retailers : list retailer_entry;
  retailers_summary : retailer_summary
}.

(** [User.query.filter(User.role.in_(['retailer', 'staff'])).all()] *)
Definition retailer_accounts (accounts : list Account) : list Account :=
  filter (λ a, role (user a) ∈ ["retailer"; "staff"]) accounts.

(** [RetailerMetrics.query.filter_by(retailer_id=retailer.id).first()] *)
Definition metrics_of (table : list RetailerMetrics) (retailer : Account)
    : option RetailerMetrics :=
  head (filter (λ m, metrics_retailer_id m = uid (user retailer)) table).

(** [(sales_today / daily_quota * 100) if daily_quota > 0 else 0] *)
Definition progress (m : RetailerMetrics) : option Q :=
  if 0 <? daily_quota m then
    q ← truediv (sales_today m) (daily_quota m); Some (times_100 q)
  else Some (inject_Z 0).

(** The body of the loop: the rows one retailer appends ([None] stands for
    [ZeroDivisionError]). *)
Definition retailer_rows (table : list RetailerMetrics) (retailer : Account)
    : option (list retailer_entry) :=
  match metrics_of table retailer with
  | Some m =>
      p ← progress m;
      Some [ {| retailer_name := full_name (user retailer);
                re_user_id := uid (user retailer);
                re_daily_quota := daily_quota m;
                current_sales := sales_today m;
                quota_progress := round2_float p;
                streak_count := current_streak m;
                re_total_sales := total_sales m;
                re_has_profile_pic := bool_decide (user_image retailer ≠ None) |} ]
  | None => Some []
  end.

(** The sort key [(x['streak_count'], x['total_sales'])] and the order of
    Python tuples. *)
Definition sort_key (e : retailer_entry) : Z * Z := (streak_count e, re_total_sales e).

Definition key_lt (a b : Z * Z) : bool :=
  (a.1 <? b.1) || ((a.1 =? b.1) && (a.2 <? b.2)).

(** [list.sort(key=..., reverse=True)]: descending and stable, rows with
    equal keys keep their order. *)
Fixpoint insert_desc (x : retailer_entry) (l : list retailer_entry)
    : list retailer_entry :=
  match l with
  | [] => [x]
  | y :: rest =>
      if key_lt (sort_key x) (sort_key y) then y :: insert_desc x rest
      else x :: l
  end.

Definition sort_reverse (l : list retailer_entry) : list retailer_entry :=
  foldr insert_desc [] l.

Definition retailer_performance_report (accounts : list Account)
    (table : list RetailerMetrics) : option retailer_report :=
  let retailers := retailer_accounts accounts in
  rows ← mapM (retailer_rows table) retailers;
  let performance_data := sort_reverse (concat rows) in
  Some {| retailers := performance_data;
          retailers_summary :=
            {| total_retailers := length retailers;
               active_today :=
                 length (filter (λ r, 0 < current_sales r) performance_data) |} |}.

(** *** Report 5: managerial activity log *)

Record log_row := {
  lr_log_id : Z;
  lr_product_name : string;
  lr_action_type : action;
  lr_manager_id : Z;
  lr_manager_name : string;
  lr_log_time : Z;
  lr_notes : string
}.

Definition latest_first (a b : log_row) : Prop := lr_log_time b ≤ lr_log_time a.

Global Instance latest_first_dec (a b : log_row) : Decision (latest_first a b).
Proof. unfold latest_first. apply _. Defined.

(** The joins, the role filter, the two date filters and
    [order_by(ProductLog.log_time.desc())].  As in report 1 the [date]
    bounds are compared with the [datetime] column as their midnights,
    and the order among equal [log_time]s is the database's. *)
Definition logs_query (logs : list ProductLog) (db : session)
    (start_date end_date : Z) : list log_row :=
  merge_sort latest_first
    (filter (λ r, midnight start_date ≤ lr_log_time r
                  ∧ lr_log_time r ≤ midnight end_date)
       (l ← logs;
        p ← filter (λ p, log_product_id l = prod_id p) (product_table db);
        u ← filter (λ u, user_id l = uid u) (users db);
        if decide (role u ∈ ["admin"; "manager"]) then
          [ {| lr_log_id := log_id l; lr_product_name := name p;
               lr_action_type := action_type l; lr_manager_id := uid u;
               lr_manager_name := full_name u; lr_log_time := log_time l;
               lr_notes := notes l |} ]
        else [])).

Record log_entry := {
  le_log_id : Z;
  le_product_name : string;
  action_performed : action;
  manager_id : Z;
  manager_name : string;
  date_time : Z;
  le_notes : string
}.

Record log_summary := {
  total_actions : nat;
  unique_managers : nat
}.

Record log_report := {
  log_date_range : Z * Z;
  logs_rows : list log_entry;
  logs_summary : log_summary
}.

Definition log_entry_of (r : log_row) : log_entry :=
  {| le_log_id := lr_log_id r; le_product_name := lr_product_name r;
     action_performed := lr_action_type r; manager_id := lr_manager_id r;
     manager_name := lr_manager_name r; date_time := lr_log_time r;
     le_notes := lr_notes r |}.

Definition managerial_activity_log_report (today : Z) (logs : list ProductLog)
    (db : session) (start_date end_date : option Z) : log_report :=
  let start_date := match start_date with Some d => d | None => today - 30 end in
  let end_date := match end_date with Some d => d | None => today end in
  let results := logs_query logs db start_date end_date in
  {| log_date_range := (start_date, end_date);
     logs_rows := map log_entry_of results;
     logs_summary :=
       {| total_actions := length results;
          unique_managers := distinct_count (map lr_manager_id results) |} |}.

(** *** Report 7: user accounts *)

Record account_entry := {
  ae_user_id : Z;
  ae_username : string;
  ae_full_name : string;
  ae_role : string;
  account_status : string;
  ae_has_profile_pic : bool
}.

Record account_summary := {
  total_users : nat;
  admins : nat;
  managers : nat;
  retailers_count : nat
}.

Record account_report := {
  users_rows : list account_entry;
  users_summary : account_summary
}.

(** [users] is what [User.query.order_by(User.full_name).all()] returns,
    in the order the database yields it. *)
Definition user_accounts_report (users : list Account) : account_report :=
  {| users_rows :=
       map (λ u, {| ae_user_id := uid (user u); ae_username := username u;
                    ae_full_name := full_name (user u); ae_role := role (user u);
                    account_status := "Active";
                    ae_has_profile_pic := bool_decide (user_image u ≠ None) |})
           users;
     users_summary :=
       {| total_users := length users;
          admins := length (filter (λ u, role (user u) = "admin") users);
          managers := length (filter (λ u, role (user u) = "manager") users);
          retailers_count :=
            length (filter (λ u, role (user u) ∈ ["retailer"; "staff"]) users) |} |}.

End Reports.

(** ** Text handling of the dialogs *)

Module Text.

(** [str.isascii()]: every character is below 128.  A [string] stands
    for a Python [str] of such characters, one [ascii] each. *)
Fixpoint isascii (s : string) : bool :=
  match s with
  | EmptyString => true
  | String c rest => (nat_of_ascii c <? 128)%nat && isascii rest
  end.

(** [str.isspace()] of an ASCII character: tab to carriage return, the
    four separators and the blank.  Python counts further characters
    beyond ASCII as whitespace (U+0085, U+00A0, ...), which [strip]
    below does not know: it is [str.strip()] on ASCII texts. *)
Definition isspace (c : ascii) : bool :=
  let n := nat_of_ascii c in
  (((9 <=? n) && (n <=? 13)) || ((28 <=? n) && (n <=? 32)))%nat.

Fixpoint lstrip (s : string) : string :=
  match s with
  | EmptyString => EmptyString
  | String c rest => if isspace c then lstrip rest else s
  end.

Fixpoint rstrip (s : string) : string :=
  match s with
  | EmptyString => EmptyString
  | String c rest =>
      match rstrip rest with
      | EmptyString => if isspace c then EmptyString else String c EmptyString
      | kept => String c kept
      end
  end.

(** [str.strip()] of an ASCII text. *)
Definition strip (s : string) : string := rstrip (lstrip s).

(** [text or default] on strings: the empty string is falsy. *)
Definition or_default (text default : string) : string :=
  match text with
  | EmptyString => default
  | _ => text
  end.

(** [str(n)] for an integer. *)
Definition str (n : Z) : string := DecimalString.NilZero.string_of_int (Z.to_int n).

End Text.

(** ** The dialogs of the product detail page and the confirmation dialog *)

Module Dialogs.
Import Ledger.

Record disposal_data := {
  dd_quantity : Z;
  dd_reason : string
}.

(** [DisposeBatchDialog.get_data], the user having entered [typed] in the
    spin box and [reason_text] in the text area. *)
Definition DisposeBatchDialog_get_data (available_quantity typed : Z)
    (reason_text : string) : disposal_data :=
  {| dd_quantity := ProductDetail.get_data_quantity available_quantity typed;
     dd_reason := Text.or_default (Text.strip reason_text) "Disposed" |}.

Record batch_data := {
  bd_quantity : Z;
  bd_expiration_date : Z;
  bd_reason : string
}.

(** [AddBatchDialog.init_ui]: the quantity input. *)
Definition AddBatchDialog_quantity_input : ProductDetail.spin_box :=
  ProductDetail.setValue 1
    (ProductDetail.setMaximum 999999
       (ProductDetail.setMinimum 1 ProductDetail.QSpinBox)).

(** [AddBatchDialog.get_data] *)
Definition AddBatchDialog_get_data (typed picked_date : Z) (reason_text : string)
    : batch_data :=
  {| bd_quantity :=
       ProductDetail.value (ProductDetail.setValue typed AddBatchDialog_quantity_input);
     bd_expiration_date := picked_date;
     bd_reason := Text.or_default (Text.strip reason_text) "Stock added" |}.

(** [EditBatchDialog.get_data]: the date and the reason, no quantity. *)
Definition EditBatchDialog_get_data (picked_date : Z) (reason_text : string)
    : Z * string :=
  (picked_date, Text.or_default (Text.strip reason_text) "Updated").

(** [ConfirmDeleteDialog]: [outcome] is [None] while the dialog is open,
    then whether it was accepted. *)
Record ConfirmDeleteDialog := {
  confirmation_text : string;
  confirmed : bool;
  input_field : string;
  outcome : option bool;
  warnings_shown : nat
}.

(** [ConfirmDeleteDialog.__init__] *)
Definition open_dialog (text : string) : ConfirmDeleteDialog :=
  {| confirmation_text := text; confirmed := false; input_field := "";
     outcome := None; warnings_shown := 0 |}.

(** The user edits the line. *)
Definition type_text (s : string) (d : ConfirmDeleteDialog) : ConfirmDeleteDialog :=
  {| confirmation_text := confirmation_text d; confirmed := confirmed d;
     input_field := s; outcome := outcome d; warnings_shown := warnings_shown d |}.

(** [ConfirmDeleteDialog.on_confirm] *)
Definition on_confirm (d : ConfirmDeleteDialog) : ConfirmDeleteDialog :=
  let entered_text := Text.strip (input_field d) in
  if String.eqb entered_text (confirmation_text d) then
    {| confirmation_text := confirmation_text d; confirmed := true;
       input_field := input_field d; outcome := Some true;
       warnings_shown := warnings_shown d |}
  else
    {| confirmation_text := confirmation_text d; confirmed := confirmed d;
       input_field := ""; outcome := outcome d;
       warnings_shown := S (warnings_shown d) |}.

(** The cancel button: [reject]. *)
Definition cancel (d : ConfirmDeleteDialog) : ConfirmDeleteDialog :=
  {| confirmation_text := confirmation_text d; confirmed := confirmed d;
     input_field := input_field d; outcome := Some false;
     warnings_shown := warnings_shown d |}.

(** What the user does while the dialog is open. *)
Inductive gesture :=
  | Type_ (s : string)
  | ClickDelete
  | ClickCancel.

(** [dialog.exec()]: gestures are handled until the dialog closes. *)
Fixpoint exec (gs : list gesture) (d : ConfirmDeleteDialog) : ConfirmDeleteDialog :=
  match outcome d, gs with
  | Some _, _ => d
  | None, [] => cancel d
  | None, Type_ s :: rest => exec rest (type_text s d)
  | None, ClickDelete :: rest => exec rest (on_confirm d)
  | None, ClickCancel :: rest => exec rest (cancel d)
  end.

(** [dialog.exec() == QDialog.DialogCode.Accepted and dialog.is_confirmed()] *)
Definition accepted_and_confirmed (d : ConfirmDeleteDialog) : bool :=
  bool_decide (outcome d = Some true) && confirmed d.

(** The confirmation step of [ProductDetailPage.delete_batch]: the text to
    type is [str(quantity)]. *)
Definition confirm_batch_delete (batch : StockBatch) (gs : list gesture) : bool :=
  accepted_and_confirmed (exec gs (open_dialog (Text.str (quantity batch)))).

End Dialogs.

(** ** Selecting batches and reports in the pages *)

Module Pages.
Import Ledger.

(** What [api.get_stock_batches] may answer: a dict (with a [batches] or a
    [stock_batches] entry, or neither), a list, or anything else. *)
Inductive response (A : Type) :=
  | Dict (batches : option (list A)) (stock_batches : option (list A))
  | List_ (items : list A)
  | Other.
Arguments Dict {A} batches stock_batches.
Arguments List_ {A} items.
Arguments Other {A}.

(** An entry of the combo box: the batch id it carries, if any, behind a
    text. *)
Inductive combo_item :=
  | BatchItem (data : option Z)
  | Placeholder (text : string).

(** Python's [a or b] on optional integers: [None] and [0] are falsy. *)
Definition truthy (v : option Z) : bool :=
  match v with
  | Some n => negb (n =? 0)
  | None => false
  end.

Definition py_or (a b : option Z) : option Z := if truthy a then a else b.

(** The keys of a batch dict the pages read. *)
Record batch_dict := {
  key_id : option Z;
  key__id : option Z;
  key_batch_id : option Z;
  key_quantity : Z
}.

(** [batch.get('id') or batch.get('_id') or batch.get('batch_id')] *)
Definition batch_ref (b : batch_dict) : option Z :=
  py_or (py_or (key_id b) (key__id b)) (key_batch_id b).

(** [ProductDetailPage.load_batches]: [answer] is [None] when the API call
    raises.  The result is [self.batches] and the combo box entries. *)
Definition load_batches (answer : option (response batch_dict))
    : list batch_dict * list combo_item :=
  match answer with
  | None => ([], [Placeholder "Error loading batches"])
  | Some resp =>
      let batches :=
        match resp with
        | Dict (Some l) _ => l
        | Dict None stock => default [] stock
        | List_ l => l
        | Other => []
        end in
      match batches with
      | [] => (batches, [Placeholder "No batches available"])
      | _ :: _ => (batches, map (λ b, BatchItem (batch_ref b)) batches)
      end
  end.

(** [ProductDetailPage.get_selected_batch], [index] being the combo box's
    current index (-1 when it has none). *)
Definition get_selected_batch {A} (index : Z) (batches : list A) : option A :=
  if (0 <=? index) && (index <? Z.of_nat (length batches))
  then batches !! Z.to_nat index
  else None.

(** Python's [l[i]]: negative indices count from the end, [None] stands
    for [IndexError]. *)
Definition py_index {A} (l : list A) (i : Z) : option A :=
  if 0 <=? i then l !! Z.to_nat i
  else if - Z.of_nat (length l) <=? i then l !! Z.to_nat (Z.of_nat (length l) + i)
  else None.

Definition report_types : list string :=
  [ "sales-performance"; "category-distribution"; "retailer-performance";
    "alerts"; "managerial-activity"; "transactions"; "user-accounts" ].

(** [ReportsPage.get_report_type_string], [report_index] being the combo
    box's current index. *)
Definition get_report_type_string (report_index : Z) : option string :=
  if report_index <? Z.of_nat (length report_types)
  then py_index report_types report_index
  else Some "sales-performance".

Definition date_based_reports : list string := ["sales-performance"; "transactions"].

(** [ReportsPage.get_report_params]: the two dates, or no parameter. *)
Definition get_report_params (report_index start_date end_date : Z)
    : option (option (Z * Z)) :=
  report_type ← get_report_type_string report_index;
  Some (if decide (report_type ∈ date_based_reports)
        then Some (start_date, end_date) else None).

End Pages.

(** * Properties *)

(** ** Sums *)

Lemma fold_left_Zadd_acc (xs : list Z) (a : Z) :
  fold_left Z.add xs a = a + fold_left Z.add xs 0.
Proof.
  revert a. induction xs as [|x xs IH]; intros a; simpl.
  - lia.
  - rewrite (IH (a + x)), (IH (0 + x)). lia.
Qed.

Lemma py_sum_nil : py_sum [] = 0.
Proof. reflexivity. Qed.

Lemma py_sum_cons (x : Z) (xs : list Z) : py_sum (x :: xs) = x + py_sum xs.
Proof. unfold py_sum. simpl. apply fold_left_Zadd_acc. Qed.

Lemma py_sum_app (xs ys : list Z) : py_sum (xs ++ ys) = py_sum xs + py_sum ys.
Proof.
  induction xs as [|x xs IH]; simpl.
  - rewrite py_sum_nil. lia.
  - rewrite !py_sum_cons, IH. lia.
Qed.

(** ** The sequence allocator *)

Section allocator.
Import Counters.

Variable name : string.

Lemma counter_value_insert (cs : gmap string Z) (v : Z) :
  counter_value name (<[name := v]> cs) = v.
Proof. unfold counter_value. by rewrite lookup_insert_eq. Qed.

Lemma counter_value_insert_ne (other : string) (cs : gmap string Z) (v : Z) :
  other ≠ name → counter_value name (<[other := v]> cs) = counter_value name cs.
Proof. intros Hne. unfold counter_value. by rewrite lookup_insert_ne. Qed.

Lemma seed_one_value (cs : gmap string Z) (c : string * Z) :
  initial_seq c.1 = c.2 →
  counter_value name (seed_one cs c) = counter_value name cs.
Proof.
  intros Hinit. unfold seed_one.
  destruct (cs !! c.1) as [v|] eqn:Hc; [done|].
  destruct (decide (c.1 = name)) as [Heq|Hne].
  - rewrite Heq in Hc, Hinit |- *.
    rewrite counter_value_insert. unfold counter_value. by rewrite Hc.
  - by apply counter_value_insert_ne.
Qed.

(** Seeding creates each counter with the value a missing counter counts
    as, and never overwrites one: no counter's value moves. *)
Lemma seed_counters_value (cs : gmap string Z) :
  counter_value name (seed_counters cs) = counter_value name cs.
Proof.
  unfold seed_counters.
  assert (Hall : Forall (λ c, initial_seq c.1 = c.2) initial_counters).
  { repeat constructor. }
  revert cs. induction Hall as [|c l Hc _ IH]; intros cs; [done|].
  cbn [fold_left]. by rewrite IH, seed_one_value.
Qed.

Lemma get_next_sequence_ok (cs : gmap string Z) :
  get_next_sequence true name cs
  = (inr (counter_value name cs + 1), <[name := counter_value name cs + 1]> cs).
Proof. reflexivity. Qed.

Lemma get_next_sequence_down (cs : gmap string Z) :
  get_next_sequence false name cs = (inl StorageUnavailable, cs).
Proof. reflexivity. Qed.

(** With the store reachable for every caller, the ids leave the store in
    ascending order, one after the other, whatever the order of service. *)
Lemma run_calls_ids (avail : nat → bool) (schedule : list nat) :
  ∀ cs : gmap string Z,
    (∀ c, c ∈ schedule → avail c = true) →
    returned_ids (run_calls avail name schedule cs).1
      = seqZ (counter_value name cs + 1) (Z.of_nat (length schedule))
    ∧ counter_value name (run_calls avail name schedule cs).2
      = counter_value name cs + Z.of_nat (length schedule).
Proof.
  induction schedule as [|c rest IH]; intros cs Hav.
  - simpl. split; [reflexivity | lia].
  - cbn [run_calls]. rewrite (Hav c) by left.
    rewrite get_next_sequence_ok.
    destruct (IH (<[name := counter_value name cs + 1]> cs)) as [Hids Hcnt].
    { intros c' Hc'. apply Hav. by right. }
    destruct (run_calls avail name rest _) as [rs cs2] eqn:Hrun.
    cbn [fst snd returned_ids] in *.
    rewrite counter_value_insert in Hids, Hcnt.
    split.
    + rewrite Hids, (seqZ_cons (counter_value name cs + 1)) by (cbn [length]; lia).
      f_equal. f_equal; cbn [length]; lia.
    + rewrite Hcnt. cbn [length]. lia.
Qed.

Lemma id_of_caller_returned (c : nat) (rs : list call_result) (v : Z) :
  id_of_caller c rs = Some v → v ∈ returned_ids rs.
Proof.
  induction rs as [|[c' r] rs IH]; simpl; [done|].
  destruct (decide (c' = c)) as [->|Hne].
  - destruct r as [e|w]; [done|]. intros [= ->]. left.
  - intros H. destruct r; [auto | right; auto].
Qed.

Lemma id_of_caller_served (avail : nat → bool) (schedule : list nat) (c : nat) :
  ∀ cs : gmap string Z,
    (∀ c', c' ∈ schedule → avail c' = true) →
    c ∈ schedule →
    is_Some (id_of_caller c (run_calls avail name schedule cs).1).
Proof.
  induction schedule as [|c0 rest IH]; intros cs Hav Hin.
  - by apply elem_of_nil in Hin.
  - cbn [run_calls]. rewrite (Hav c0) by left. rewrite get_next_sequence_ok.
    destruct (run_calls avail name rest _) as [rs cs2] eqn:Hrun.
    cbn [fst id_of_caller].
    destruct (decide (c0 = c)) as [->|Hne]; [by eexists|].
    apply elem_of_cons in Hin as [->|Hin]; [done|].
    specialize (IH (<[name := counter_value name cs + 1]> cs)).
    rewrite Hrun in IH. apply IH; [|done].
    intros c' Hc'. apply Hav. by right.
Qed.

Lemma id_of_caller_inj (avail : nat → bool) (schedule : list nat) :
  ∀ (cs : gmap string Z) (c1 c2 : nat) (v : Z),
    (∀ c, c ∈ schedule → avail c = true) →
    id_of_caller c1 (run_calls avail name schedule cs).1 = Some v →
    id_of_caller c2 (run_calls avail name schedule cs).1 = Some v →
    c1 = c2.
Proof.
  induction schedule as [|c0 rest IH]; intros cs c1 c2 v Hav.
  - simpl. done.
  - assert (Hrest : ∀ c, c ∈ rest → avail c = true).
    { intros c Hc. apply Hav. by right. }
    pose proof (run_calls_ids avail rest
                  (<[name := counter_value name cs + 1]> cs) Hrest) as [Hids _].
    specialize (IH (<[name := counter_value name cs + 1]> cs)).
    cbn [run_calls]. rewrite (Hav c0) by left. rewrite get_next_sequence_ok.
    destruct (run_calls avail name rest _) as [rs cs2] eqn:Hrun.
    cbn [fst id_of_caller] in *.
    rewrite counter_value_insert in Hids.
    assert (Hlate : ∀ c w, id_of_caller c rs = Some w → counter_value name cs + 1 < w).
    { intros c w Hw. apply id_of_caller_returned in Hw.
      rewrite Hids in Hw. apply elem_of_seqZ in Hw. lia. }
    destruct (decide (c0 = c1)) as [E1|H1], (decide (c0 = c2)) as [E2|H2].
    + congruence.
    + intros [= <-] H. apply Hlate in H. lia.
    + intros H [= <-]. apply Hlate in H. lia.
    + intros Ha Hb. by apply (IH c1 c2 v).
Qed.

Lemma Sorted_seqZ (n : nat) : ∀ m : Z, Sorted Z.le (seqZ m (Z.of_nat n)).
Proof.
  induction n as [|n IH]; intros m.
  - rewrite seqZ_nil by lia. constructor.
  - rewrite seqZ_cons by lia.
    replace (Z.pred (Z.of_nat (S n))) with (Z.of_nat n) by lia.
    constructor; [apply IH|].
    destruct n as [|n].
    + rewrite seqZ_nil by lia. constructor.
    + rewrite seqZ_cons by lia. constructor. lia.
Qed.

(** C2. [N] concurrent [allocate_id] calls on one collection name, each a
    single atomic step served in an arbitrary order: the [N] returned
    values are pairwise distinct (no id goes to two callers), every caller
    gets one, and sorted they are the gap-free run
    [prior + 1, ..., prior + N] that continues the counter's prior value;
    the counter ends at [prior + N]. *)
Theorem allocate_id_distinct_gap_free
    (avail : nat → bool) (N : nat) (schedule : list nat) (cs : gmap string Z) :
  schedule ≡ₚ seq 0 N →
  (∀ c, c ∈ schedule → avail c = true) →
  let prior := counter_value name cs in
  let rs := (run_calls avail name schedule cs).1 in
  length (returned_ids rs) = N
  ∧ NoDup (returned_ids rs)
  ∧ merge_sort Z.le (returned_ids rs) = seqZ (prior + 1) (Z.of_nat N)
  ∧ (∀ c, (c < N)%nat → is_Some (id_of_caller c rs))
  ∧ (∀ c1 c2 v, id_of_caller c1 rs = Some v → id_of_caller c2 rs = Some v → c1 = c2)
  ∧ counter_value name (run_calls avail name schedule cs).2 = prior + Z.of_nat N.
Proof.
  intros Hperm Hav prior rs.
  destruct (run_calls_ids avail schedule cs Hav) as [Hids Hcnt].
  assert (Hlen : length schedule = N).
  { rewrite Hperm. apply length_seq. }
  rewrite Hlen in Hids, Hcnt. fold prior in Hids, Hcnt. fold rs in Hids.
  repeat split.
  - rewrite Hids, length_seqZ. lia.
  - rewrite Hids. apply NoDup_seqZ.
  - rewrite Hids. apply (Sorted_unique Z.le).
    + apply (Sorted_merge_sort Z.le).
    + apply Sorted_seqZ.
    + apply merge_sort_Permutation.
  - intros c Hc. apply id_of_caller_served; [done|].
    rewrite Hperm. apply elem_of_seq. lia.
  - intros c1 c2 v. by apply id_of_caller_inj.
  - exact Hcnt.
Qed.

End allocator.

(** Three callers served in the order 2, 0, 1 on the user-id counter of an
    empty store: users start at 1001. *)
Lemma allocate_id_distinct_gap_free_witness :
  merge_sort Z.le
    (Counters.returned_ids
       (Counters.run_calls (λ _, true) "user_id" [2%nat; 0%nat; 1%nat] ∅).1)
  = [1001; 1002; 1003].
Proof.
  pose proof (allocate_id_distinct_gap_free "user_id" (λ _, true) 3
                [2%nat; 0%nat; 1%nat] ∅) as H.
  simpl in H. apply H.
  - apply (Permutation_sym (l := [0%nat; 1%nat; 2%nat])).
    apply perm_trans with [0%nat; 2%nat; 1%nat].
    + apply perm_skip, perm_swap.
    + apply perm_trans with [2%nat; 0%nat; 1%nat]; [apply perm_swap | reflexivity].
  - reflexivity.
Defined.

(** ** The base document *)

Section base_document.
Import Base.

Lemma persist_counters (d : document) (db : database) :
  counters (persist d db) = counters db.
Proof. unfold persist. by destruct (doc_id d). Qed.

Lemma save_with_id (available : bool) (d : document) (db : database) (i : Z) :
  doc_id d = Some i → save available d db = (inr d, persist d db).
Proof. intros Hid. unfold save. by rewrite Hid. Qed.

Lemma save_n_with_id (n : nat) (d : document) (i : Z) :
  doc_id d = Some i →
  ∀ db, (save_n n d db).1 = d ∧ counters (save_n n d db).2 = counters db.
Proof.
  intros Hid. induction n as [|n IH]; intros db; [done|].
  cbn [save_n]. rewrite (save_with_id true d db i Hid).
  destruct (IH (persist d db)) as [Hd Hc].
  split; [done|]. by rewrite Hc, persist_counters.
Qed.

(** C10. [save] draws an id from the allocator only for a document
    without one: its id becomes the next value of the counter named by
    the lower-cased class name, and an allocator failure leaves the
    database as it was.  A document whose id is set comes back unchanged,
    no counter moves, and the id stays the same over any number of
    re-saves. *)
Theorem save_assigns_id_once (available : bool) (d : document) (db : database) :
  (∀ i, doc_id d = Some i →
     (save available d db).1 = inr d
     ∧ counters (save available d db).2 = counters db
     ∧ ∀ n, doc_id (save_n n d db).1 = Some i
            ∧ counters (save_n n d db).2 = counters db)
  ∧ (doc_id d = None →
     let next := Counters.counter_value (collection_name d) (counters db) + 1 in
     (save true d db).1 = inr (set_id d next)
     ∧ Counters.counter_value (collection_name d) (counters (save true d db).2) = next
     ∧ save false d db = (inl Counters.StorageUnavailable, db)).
Proof.
  split.
  - intros i Hid. rewrite (save_with_id available d db i Hid). cbn [fst snd].
    split; [done|]. split; [apply persist_counters|].
    intros n. destruct (save_n_with_id n d i Hid db) as [-> ->]. done.
  - intros Hid next. unfold save. rewrite Hid.
    rewrite get_next_sequence_ok, get_next_sequence_down. cbn [fst snd].
    split; [done|]. split; [|done].
    rewrite persist_counters. cbn [counters]. apply counter_value_insert.
Qed.

End base_document.

(** A [Product] document, stored in the collection [products], saved
    first without an id, then saved again twice: the counter drawn from
    is [product], and products start at 1. *)
Definition sample_document : Base.document :=
  {| Base.doc_id := None; Base.class_name := "Product";
     Base.storage_collection := "products";
     Base.payload := {[ "name" := "Milk" ]} |}.

Definition empty_database : Base.database :=
  {| Base.counters := ∅; Base.collections := ∅ |}.

Lemma save_assigns_id_once_witness :
  (Base.save true sample_document empty_database).1
    = inr (Base.set_id sample_document 1)
  ∧ Base.doc_id (Base.save_n 3 sample_document empty_database).1 = Some 1
  ∧ Counters.counter_value "product"
      (Base.counters (Base.save_n 3 sample_document empty_database).2) = 1.
Proof.
  pose proof (save_assigns_id_once true sample_document empty_database)
    as [_ Hfresh].
  destruct (Hfresh eq_refl) as (Hfirst & Hcounter & _).
  pose proof (save_assigns_id_once true (Base.set_id sample_document 1)
                (Base.save true sample_document empty_database).2) as [Hset _].
  destruct (Hset 1 eq_refl) as (_ & _ & Hn).
  destruct (Hn 2%nat) as [Hid Hcs].
  split; [exact Hfirst|]. split; [exact Hid|].
  change (Base.save_n 3 sample_document empty_database)
    with (Base.save_n 2 (Base.set_id sample_document 1)
            (Base.save true sample_document empty_database).2).
  rewrite Hcs. exact Hcounter.
Defined.

(** ** The batch ledger *)

Section ledger.
Import Ledger.

Implicit Types (s : store) (bs : gmap Z StockBatch) (b : StockBatch).

Lemma stock_sum_empty (pid : Z) : stock_sum pid ∅ = 0.
Proof. unfold stock_sum. apply map_fold_empty. Qed.

Lemma stock_sum_insert (pid i : Z) b bs :
  bs !! i = None →
  stock_sum pid (<[i := b]> bs) = contribution pid b + stock_sum pid bs.
Proof.
  intros Hfresh. unfold stock_sum.
  rewrite map_fold_insert_L; [done | intros; lia | done].
Qed.

Lemma stock_sum_delete (pid i : Z) b bs :
  bs !! i = Some b →
  stock_sum pid (delete i bs) = stock_sum pid bs - contribution pid b.
Proof.
  intros Hb. unfold stock_sum.
  rewrite (map_fold_delete_L _ 0 i b bs); [lia | intros; lia | done].
Qed.

Lemma stock_sum_update (pid i : Z) b b' bs :
  bs !! i = Some b →
  stock_sum pid (<[i := b']> bs)
  = stock_sum pid bs - contribution pid b + contribution pid b'.
Proof.
  intros Hb. rewrite <- insert_delete_eq.
  rewrite stock_sum_insert by apply lookup_delete_eq.
  rewrite (stock_sum_delete pid i b) by done. lia.
Qed.

Lemma contribution_own b : contribution (product_id b) b = quantity b.
Proof. unfold contribution. by rewrite decide_True. Qed.

Lemma contribution_other (pid : Z) b : product_id b ≠ pid → contribution pid b = 0.
Proof. intros. unfold contribution. by rewrite decide_False. Qed.

Lemma contribution_set_quantity (pid : Z) b (v : Z) :
  contribution pid (set_quantity b v)
  = if decide (product_id b = pid) then v else 0.
Proof. reflexivity. Qed.

(** Writing a log entry moves only the log counter. *)
Lemma append_log_batch_counter (rq : request) (pid : Z) (a : action)
    (note : string) (cs : gmap string Z) (ls : list ProductLog) :
  Counters.counter_value batch_counter (append_log rq pid a note cs ls).1
  = Counters.counter_value batch_counter cs.
Proof.
  unfold append_log. rewrite get_next_sequence_ok. cbn [fst].
  by apply counter_value_insert_ne.
Qed.

Lemma append_log_grows (rq : request) (pid : Z) (a : action)
    (note : string) (cs : gmap string Z) (ls : list ProductLog) :
  ∃ entry, (append_log rq pid a note cs ls).2 = ls ++ [entry]
           ∧ log_product_id entry = pid ∧ action_type entry = a.
Proof. unfold append_log. rewrite get_next_sequence_ok. by eexists. Qed.

Lemma commit_pass {A} (pid : Z) (a : A) s s' :
  check_invariant pid s' = true → commit pid a s s' = (Ok a, s').
Proof. intros H. unfold commit. by rewrite H. Qed.

Lemma check_invariant_true (pid : Z) s :
  (∀ p, products s !! pid = Some p → stock_level p = stock_sum pid (batches s)) →
  check_invariant pid s = true.
Proof.
  intros H. unfold check_invariant.
  destruct (products s !! pid) as [p|]; [|done].
  apply bool_decide_eq_true. by apply H.
Qed.

(** *** What each call does from a consistent store *)

Lemma allocated_fresh s :
  ids_allocated s →
  batches s !! (Counters.counter_value batch_counter (counters s) + 1) = None.
Proof.
  intros Hids.
  destruct (batches s !! _) as [b|] eqn:Hb; [|done].
  apply Hids in Hb. lia.
Qed.

Lemma add_batch_success (rq : request) (pid q : Z) (exp : option Z)
    (why : string) s (p : Product) :
  ledger_ok s → available rq = true → products s !! pid = Some p → 0 < q →
  let i := Counters.counter_value batch_counter (counters s) + 1 in
  let b := {| batch_id := i; product_id := pid; quantity := q;
              expiration_date := exp; created_at := now rq; reason := why |} in
  ∃ s', add_batch rq pid q exp why s = (Ok b, s')
        ∧ products s' = <[pid := set_stock p (stock_level p + q)]> (products s)
        ∧ batches s' = <[i := b]> (batches s)
        ∧ Counters.counter_value batch_counter (counters s') = i.
Proof.
  intros [Hstock Hids] Hav Hp Hq i b.
  unfold add_batch. rewrite Hav, Hp. cbn [negb].
  destruct (Z.leb_spec q 0) as [?|_]; [lia|].
  rewrite get_next_sequence_ok. fold i. fold b.
  destruct (append_log rq pid ADD_BATCH why _ (logs s)) as [cs2 ls] eqn:Hlog.
  eexists. split.
  - apply commit_pass, check_invariant_true. cbn [products batches].
    intros p'. rewrite lookup_insert_eq. intros [= <-]. cbn [stock_level set_stock].
    rewrite stock_sum_insert by (by apply allocated_fresh).
    rewrite (Hstock pid p Hp). unfold contribution. cbn [product_id quantity b].
    rewrite decide_True by done. lia.
  - cbn [products batches counters]. repeat split.
    pose proof (append_log_batch_counter rq pid ADD_BATCH why
                  (<[batch_counter := i]> (counters s)) (logs s)) as Hc.
    rewrite Hlog in Hc. cbn [fst] in Hc. rewrite Hc.
    apply counter_value_insert.
Qed.

Lemma dispose_success (rq : request) (bid q : Z) (why : string) s b (p : Product) :
  stock_consistent s → available rq = true →
  batches s !! bid = Some b → 0 < q → q ≤ quantity b →
  products s !! product_id b = Some p →
  ∃ s', dispose rq bid q why s = (Ok (set_quantity b (quantity b - q)), s')
        ∧ products s'
          = <[product_id b := set_stock p (stock_level p - q)]> (products s)
        ∧ batches s' = <[bid := set_quantity b (quantity b - q)]> (batches s)
        ∧ Counters.counter_value batch_counter (counters s')
          = Counters.counter_value batch_counter (counters s).
Proof.
  intros Hstock Hav Hb Hq Hle Hp.
  unfold dispose. rewrite Hav, Hb, Hp. cbn [negb].
  destruct (Z.leb_spec q 0) as [?|_]; [lia|].
  destruct (Z.ltb_spec (quantity b) q) as [?|_]; [lia|].
  destruct (append_log rq (product_id b) DISPOSE why _ (logs s)) as [cs ls] eqn:Hlog.
  eexists. split.
  - apply commit_pass, check_invariant_true. cbn [products batches].
    intros p'. rewrite lookup_insert_eq. intros [= <-]. cbn [stock_level set_stock].
    rewrite (stock_sum_update _ bid b) by done.
    rewrite contribution_set_quantity, contribution_own, decide_True by done.
    rewrite (Hstock _ p Hp). lia.
  - cbn [products batches counters]. repeat split.
    pose proof (append_log_batch_counter rq (product_id b) DISPOSE why
                  (counters s) (logs s)) as Hc.
    by rewrite Hlog in Hc.
Qed.

Lemma delete_batch_success (rq : request) (bid : Z) s b :
  stock_consistent s → available rq = true →
  batches s !! bid = Some b → quantity b = 0 →
  ∃ s', delete_batch rq bid s = (Ok tt, s')
        ∧ products s' = products s
        ∧ batches s' = delete bid (batches s)
        ∧ Counters.counter_value batch_counter (counters s')
          = Counters.counter_value batch_counter (counters s).
Proof.
  intros Hstock Hav Hb Hzero.
  unfold delete_batch. rewrite Hav, Hb. cbn [negb].
  destruct (Z.ltb_spec 0 (quantity b)) as [?|_]; [lia|].
  destruct (append_log rq (product_id b) DELETE_BATCH "" _ (logs s)) as [cs ls] eqn:Hlog.
  eexists. split.
  - apply commit_pass, check_invariant_true. cbn [products batches].
    intros p' Hp'. rewrite (stock_sum_delete _ bid b) by done.
    rewrite contribution_own, Hzero, (Hstock _ p' Hp'). lia.
  - cbn [products batches counters]. repeat split.
    pose proof (append_log_batch_counter rq (product_id b) DELETE_BATCH ""
                  (counters s) (logs s)) as Hc.
    by rewrite Hlog in Hc.
Qed.

(** *** Preservation *)

Lemma commit_cases {A} (pid : Z) (a : A) s s' :
  (commit pid a s s' = (Ok a, s') ∧ check_invariant pid s' = true)
  ∨ commit pid a s s' = (Err ConsistencyViolation, s).
Proof. unfold commit. destruct (check_invariant pid s'); auto. Qed.

Lemma consistent_after (pid : Z) s s' :
  stock_consistent s →
  check_invariant pid s' = true →
  (∀ pid', pid' ≠ pid →
     products s' !! pid' = products s !! pid'
     ∧ stock_sum pid' (batches s') = stock_sum pid' (batches s)) →
  stock_consistent s'.
Proof.
  intros Hstock Hcheck Hframe pid' p' Hp'.
  destruct (decide (pid' = pid)) as [->|Hne].
  - unfold check_invariant in Hcheck. rewrite Hp' in Hcheck.
    by apply bool_decide_eq_true in Hcheck.
  - destruct (Hframe pid' Hne) as [Hprod Hsum].
    rewrite Hsum. apply Hstock. by rewrite <- Hprod.
Qed.

Lemma add_batch_preserves (rq : request) (pid q : Z) (exp : option Z)
    (why : string) s :
  ledger_ok s → ledger_ok (add_batch rq pid q exp why s).2.
Proof.
  intros Hok. pose proof Hok as [Hstock Hids].
  unfold add_batch.
  destruct (available rq); cbn [negb]; [|done].
  destruct (products s !! pid) as [p|] eqn:Hp; [|done].
  destruct (q <=? 0); [done|].
  rewrite get_next_sequence_ok.
  set (i := Counters.counter_value batch_counter (counters s) + 1).
  destruct (append_log rq pid ADD_BATCH why _ (logs s)) as [cs2 ls] eqn:Hlog.
  assert (Hcnt : Counters.counter_value batch_counter cs2 = i).
  { pose proof (append_log_batch_counter rq pid ADD_BATCH why
                  (<[batch_counter := i]> (counters s)) (logs s)) as Hc.
    rewrite Hlog in Hc. cbn [fst] in Hc. rewrite Hc.
    apply counter_value_insert. }
  match goal with |- ledger_ok (commit ?p ?a ?s0 ?s1).2 =>
    destruct (commit_cases p a s0 s1) as [[-> Hcheck]| ->] end; [|done].
  cbn [snd]. split.
  - apply (consistent_after pid s); [done..|].
    intros pid' Hne. cbn [products batches]. split.
    + by apply lookup_insert_ne.
    + rewrite stock_sum_insert by (by apply allocated_fresh).
      rewrite contribution_other by done. lia.
  - intros bid b. cbn [batches counters]. rewrite Hcnt.
    destruct (decide (i = bid)) as [<-|Hne].
    + lia.
    + rewrite lookup_insert_ne by done. intros Hb. apply Hids in Hb.
      unfold i. lia.
Qed.

Lemma dispose_preserves (rq : request) (bid q : Z) (why : string) s :
  ledger_ok s → ledger_ok (dispose rq bid q why s).2.
Proof.
  intros Hok. pose proof Hok as [Hstock Hids].
  unfold dispose.
  destruct (available rq); cbn [negb]; [|done].
  destruct (batches s !! bid) as [b|] eqn:Hb; [|done].
  destruct (q <=? 0); [done|].
  destruct (quantity b <? q); [done|].
  destruct (products s !! product_id b) as [p|] eqn:Hp; [|done].
  destruct (append_log rq (product_id b) DISPOSE why _ (logs s)) as [cs ls] eqn:Hlog.
  assert (Hcnt : Counters.counter_value batch_counter cs
                 = Counters.counter_value batch_counter (counters s)).
  { pose proof (append_log_batch_counter rq (product_id b) DISPOSE why
                  (counters s) (logs s)) as Hc.
    by rewrite Hlog in Hc. }
  match goal with |- ledger_ok (commit ?p ?a ?s0 ?s1).2 =>
    destruct (commit_cases p a s0 s1) as [[-> Hcheck]| ->] end; [|done].
  cbn [snd]. split.
  - apply (consistent_after (product_id b) s); [done..|].
    intros pid' Hne. cbn [products batches]. split.
    + by apply lookup_insert_ne.
    + rewrite (stock_sum_update _ bid b) by done.
      rewrite contribution_set_quantity, decide_False by done.
      rewrite contribution_other by done. lia.
  - intros bid' b'. cbn [batches counters]. rewrite Hcnt.
    destruct (decide (bid = bid')) as [<-|Hne].
    + intros _. by apply (Hids bid b).
    + rewrite lookup_insert_ne by done. apply Hids.
Qed.

Lemma delete_batch_preserves (rq : request) (bid : Z) s :
  ledger_ok s → ledger_ok (delete_batch rq bid s).2.
Proof.
  intros Hok. pose proof Hok as [Hstock Hids].
  unfold delete_batch.
  destruct (available rq); cbn [negb]; [|done].
  destruct (batches s !! bid) as [b|] eqn:Hb; [|done].
  destruct (0 <? quantity b); [done|].
  destruct (append_log rq (product_id b) DELETE_BATCH "" _ (logs s)) as [cs ls] eqn:Hlog.
  assert (Hcnt : Counters.counter_value batch_counter cs
                 = Counters.counter_value batch_counter (counters s)).
  { pose proof (append_log_batch_counter rq (product_id b) DELETE_BATCH ""
                  (counters s) (logs s)) as Hc.
    by rewrite Hlog in Hc. }
  match goal with |- ledger_ok (commit ?p ?a ?s0 ?s1).2 =>
    destruct (commit_cases p a s0 s1) as [[-> Hcheck]| ->] end; [|done].
  cbn [snd]. split.
  - apply (consistent_after (product_id b) s); [done..|].
    intros pid' Hne. cbn [products batches]. split; [done|].
    rewrite (stock_sum_delete _ bid b) by done.
    rewrite contribution_other by done. lia.
  - intros bid' b'. cbn [batches counters]. rewrite Hcnt.
    intros Hb'. apply lookup_delete_Some in Hb' as [_ Hb']. by apply (Hids bid' b').
Qed.

Lemma commit_snd_cases {A} (pid : Z) (a : A) s s' :
  (commit pid a s s').2 = s' ∨ (commit pid a s s').2 = s.
Proof. destruct (commit_cases pid a s s') as [[-> _]| ->]; auto. Qed.

Lemma add_batch_nonneg (rq : request) (pid q : Z) (exp : option Z)
    (why : string) s :
  quantities_nonneg s → quantities_nonneg (add_batch rq pid q exp why s).2.
Proof.
  intros Hnn. unfold add_batch.
  destruct (available rq); cbn [negb]; [|done].
  destruct (products s !! pid) as [p|]; [|done].
  destruct (Z.leb_spec q 0) as [?|Hq]; [done|].
  rewrite get_next_sequence_ok.
  destruct (append_log rq pid ADD_BATCH why _ (logs s)) as [cs2 ls].
  match goal with |- quantities_nonneg (commit ?p ?a ?s0 ?s1).2 =>
    destruct (commit_snd_cases p a s0 s1) as [-> | ->] end; [|done].
  intros bid b. cbn [batches]. intros Hb.
  apply lookup_insert_Some in Hb as [[_ <-]|[_ Hb]]; [cbn; lia | by apply (Hnn bid)].
Qed.

Lemma dispose_nonneg (rq : request) (bid q : Z) (why : string) s :
  quantities_nonneg s → quantities_nonneg (dispose rq bid q why s).2.
Proof.
  intros Hnn. unfold dispose.
  destruct (available rq); cbn [negb]; [|done].
  destruct (batches s !! bid) as [b|] eqn:Hb; [|done].
  destruct (q <=? 0); [done|].
  destruct (Z.ltb_spec (quantity b) q) as [?|Hle]; [done|].
  destruct (products s !! product_id b) as [p|]; [|done].
  destruct (append_log rq (product_id b) DISPOSE why _ (logs s)) as [cs ls].
  match goal with |- quantities_nonneg (commit ?p ?a ?s0 ?s1).2 =>
    destruct (commit_snd_cases p a s0 s1) as [-> | ->] end; [|done].
  intros bid' b'. cbn [batches]. intros Hb'.
  apply lookup_insert_Some in Hb' as [[_ <-]|[_ Hb']]; [cbn; lia | by apply (Hnn bid')].
Qed.

Lemma delete_batch_nonneg (rq : request) (bid : Z) s :
  quantities_nonneg s → quantities_nonneg (delete_batch rq bid s).2.
Proof.
  intros Hnn. unfold delete_batch.
  destruct (available rq); cbn [negb]; [|done].
  destruct (batches s !! bid) as [b|] eqn:Hb; [|done].
  destruct (0 <? quantity b); [done|].
  destruct (append_log rq (product_id b) DELETE_BATCH "" _ (logs s)) as [cs ls].
  match goal with |- quantities_nonneg (commit ?p ?a ?s0 ?s1).2 =>
    destruct (commit_snd_cases p a s0 s1) as [-> | ->] end; [|done].
  intros bid' b'. cbn [batches]. intros Hb'.
  apply lookup_delete_Some in Hb' as [_ Hb']. by apply (Hnn bid').
Qed.

(** From a consistent store the defensive check never fires. *)
Lemma apply_op_no_violation (rq : request) (o : op) s :
  ledger_ok s → quantities_nonneg s →
  (apply_op rq o s).1 ≠ Some ConsistencyViolation.
Proof.
  intros Hok Hnn. pose proof Hok as [Hstock Hids].
  destruct o as [pid q exp why | bid q why | bid]; cbn [apply_op].
  - destruct (available rq) eqn:Hav;
      [|unfold add_batch; rewrite Hav; done].
    destruct (products s !! pid) as [p|] eqn:Hp;
      [|unfold add_batch; rewrite Hav, Hp; done].
    destruct (Z.leb_spec q 0) as [Hq|Hq].
    + unfold add_batch. rewrite Hav, Hp. cbn [negb].
      destruct (Z.leb_spec q 0); [done | lia].
    + destruct (add_batch_success rq pid q exp why s p Hok Hav Hp Hq)
        as (s' & -> & _). done.
  - destruct (available rq) eqn:Hav;
      [|unfold dispose; rewrite Hav; done].
    destruct (batches s !! bid) as [b|] eqn:Hb;
      [|unfold dispose; rewrite Hav, Hb; done].
    destruct (Z.leb_spec q 0) as [Hq|Hq].
    { unfold dispose. rewrite Hav, Hb. cbn [negb].
      destruct (Z.leb_spec q 0); [done | lia]. }
    destruct (Z.ltb_spec (quantity b) q) as [Hlt|Hle].
    { unfold dispose. rewrite Hav, Hb. cbn [negb].
      destruct (Z.leb_spec q 0); [lia|].
      destruct (Z.ltb_spec (quantity b) q); [done | lia]. }
    destruct (products s !! product_id b) as [p|] eqn:Hp.
    + destruct (dispose_success rq bid q why s b p Hstock Hav Hb Hq Hle Hp)
        as (s' & -> & _). done.
    + unfold dispose. rewrite Hav, Hb, Hp. cbn [negb].
      destruct (q <=? 0); [done|]. by destruct (quantity b <? q).
  - destruct (available rq) eqn:Hav;
      [|unfold delete_batch; rewrite Hav; done].
    destruct (batches s !! bid) as [b|] eqn:Hb;
      [|unfold delete_batch; rewrite Hav, Hb; done].
    destruct (Z.ltb_spec 0 (quantity b)) as [Hpos|Hnpos].
    + unfold delete_batch. rewrite Hav, Hb. cbn [negb].
      destruct (Z.ltb_spec 0 (quantity b)); [done | lia].
    + assert (quantity b = 0) as Hzero by (pose proof (Hnn bid b Hb); lia).
      destruct (delete_batch_success rq bid s b Hstock Hav Hb Hzero)
        as (s' & -> & _). done.
Qed.

Lemma apply_op_preserves (rq : request) (o : op) s :
  ledger_ok s → ledger_ok (apply_op rq o s).2.
Proof.
  intros Hok. destruct o as [pid q exp why | bid q why | bid]; cbn [apply_op].
  - pose proof (add_batch_preserves rq pid q exp why s Hok).
    by destruct (add_batch rq pid q exp why s).
  - pose proof (dispose_preserves rq bid q why s Hok).
    by destruct (dispose rq bid q why s).
  - pose proof (delete_batch_preserves rq bid s Hok).
    by destruct (delete_batch rq bid s).
Qed.

Lemma apply_op_nonneg (rq : request) (o : op) s :
  quantities_nonneg s → quantities_nonneg (apply_op rq o s).2.
Proof.
  intros Hnn. destruct o as [pid q exp why | bid q why | bid]; cbn [apply_op].
  - pose proof (add_batch_nonneg rq pid q exp why s Hnn).
    by destruct (add_batch rq pid q exp why s).
  - pose proof (dispose_nonneg rq bid q why s Hnn).
    by destruct (dispose rq bid q why s).
  - pose proof (delete_batch_nonneg rq bid s Hnn).
    by destruct (delete_batch rq bid s).
Qed.

Lemma run_preserves (calls : list (request * op)) :
  ∀ s, ledger_ok s → ledger_ok (run calls s).2.
Proof.
  induction calls as [|[rq o] rest IH]; intros s Hok; [done|].
  cbn [run]. pose proof (apply_op_preserves rq o s Hok) as H1.
  destruct (apply_op rq o s) as [r s1]. cbn [snd] in H1.
  specialize (IH s1 H1). by destruct (run rest s1).
Qed.

Lemma run_no_violation (calls : list (request * op)) :
  ∀ s, ledger_ok s → quantities_nonneg s →
       Some ConsistencyViolation ∉ (run calls s).1.
Proof.
  induction calls as [|[rq o] rest IH]; intros s Hok Hnn.
  - cbn. apply not_elem_of_nil.
  - cbn [run].
    pose proof (apply_op_preserves rq o s Hok) as H1.
    pose proof (apply_op_nonneg rq o s Hnn) as H2.
    pose proof (apply_op_no_violation rq o s Hok Hnn) as H3.
    destruct (apply_op rq o s) as [r s1]. cbn [fst snd] in *.
    specialize (IH s1 H1 H2). destruct (run rest s1) as [rs s2]. cbn [fst] in *.
    intros Hin. apply elem_of_cons in Hin as [Hin|Hin]; [by symmetry in Hin | done].
Qed.

Lemma run_nonneg (calls : list (request * op)) :
  ∀ s, quantities_nonneg s → quantities_nonneg (run calls s).2.
Proof.
  induction calls as [|[rq o] rest IH]; intros s Hnn; [done|].
  cbn [run]. pose proof (apply_op_nonneg rq o s Hnn) as H1.
  destruct (apply_op rq o s) as [r s1]. cbn [snd] in H1.
  specialize (IH s1 H1). by destruct (run rest s1).
Qed.

(** [stock_sum] is the plain sum of [quantity] over the batch documents of
    the product that are in the store. *)
Lemma stock_sum_as_list (pid : Z) bs :
  stock_sum pid bs
  = py_sum (quantity <$> filter (λ b, product_id b = pid) (map_to_list bs).*2).
Proof.
  unfold stock_sum. rewrite map_fold_foldr.
  induction (map_to_list bs) as [|[i b] l IH]; [done|].
  cbn [foldr uncurry fmap list_fmap snd]. rewrite IH.
  rewrite filter_cons. unfold contribution. cbn [snd].
  destruct (decide (product_id b = pid)).
  - by rewrite fmap_cons, py_sum_cons.
  - lia.
Qed.

(** C1. After any sequence of [add_batch], [dispose] and [delete_batch]
    calls (succeeding or rejected) on a consistent store, every product's
    [stock_level] equals the sum of [quantity] over its batches that are
    still in the store, batches at quantity 0 included; the store stays
    consistent and, with no negative batch to begin with, the defensive
    check never rejects a call. *)
Theorem stock_level_equals_batch_sum (calls : list (request * op)) s :
  ledger_ok s →
  (∀ pid p, products (run calls s).2 !! pid = Some p →
     stock_level p
     = py_sum (quantity <$> filter (λ b, product_id b = pid)
                              (map_to_list (batches (run calls s).2)).*2))
  ∧ ledger_ok (run calls s).2
  ∧ (quantities_nonneg s → Some ConsistencyViolation ∉ (run calls s).1).
Proof.
  intros Hok. pose proof (run_preserves calls s Hok) as Hok'.
  split; [|split; [done|]].
  - intros pid p Hp. rewrite <- stock_sum_as_list. by apply Hok'.
  - intros Hnn. by apply run_no_violation.
Qed.

Lemma py_sum_Permutation (xs ys : list Z) : xs ≡ₚ ys → py_sum xs = py_sum ys.
Proof.
  induction 1 as [|x xs ys _ IH|x y xs|xs ys zs _ IH1 _ IH2].
  - done.
  - by rewrite !py_sum_cons, IH.
  - rewrite !py_sum_cons. lia.
  - by rewrite IH1.
Qed.

(** In a consistent store the two figures the reports use agree: the sum
    over a product's loaded [stock_batches] (report 2) is the product's
    [stock_level] (report 4). *)
Lemma reports_see_the_same_stock s (pid : Z) (p : Product) (row : ReportGenerator.ProductRow) :
  stock_consistent s →
  products s !! pid = Some p →
  ReportGenerator.product row = p →
  ReportGenerator.stock_batches row
    ≡ₚ filter (λ b, product_id b = pid) (map_to_list (batches s)).*2 →
  py_sum (map quantity (ReportGenerator.stock_batches row))
  = stock_level (ReportGenerator.product row).
Proof.
  intros Hstock Hp -> Hrel.
  rewrite (Hstock pid p Hp), stock_sum_as_list.
  apply py_sum_Permutation.
  change (map quantity (ReportGenerator.stock_batches row))
    with (quantity <$> ReportGenerator.stock_batches row).
  by rewrite Hrel.
Qed.

(** The dispose dialog confines the quantity to what the selected batch
    holds. *)
Lemma dispose_dialog_within_batch (available_quantity typed : Z) :
  ProductDetail.get_data_quantity available_quantity typed ≤ available_quantity
  ∧ (1 ≤ available_quantity →
     1 ≤ ProductDetail.get_data_quantity available_quantity typed).
Proof.
  unfold ProductDetail.get_data_quantity, ProductDetail.quantity_input,
    ProductDetail.setValue, ProductDetail.setMaximum, ProductDetail.setMinimum,
    ProductDetail.setRange, ProductDetail.bound, ProductDetail.QSpinBox.
  cbn [ProductDetail.minimum ProductDetail.maximum ProductDetail.value]. lia.
Qed.

(** C8. On a reachable store without negative quantities, [dispose] of
    more than the batch holds fails with [InsufficientQuantity] and the
    store is left exactly as it was; whatever is asked of [dispose], no
    negative quantity is written; and the page's dispose dialog never asks
    for more than the selected batch holds. *)
Theorem dispose_insufficient_quantity (rq : request) (bid q : Z) (why : string) s b :
  available rq = true →
  quantities_nonneg s →
  batches s !! bid = Some b →
  quantity b < q →
  dispose rq bid q why s = (Err InsufficientQuantity, s)
  ∧ (∀ rq' bid' q' why', quantities_nonneg (dispose rq' bid' q' why' s).2)
  ∧ (∀ typed, ProductDetail.get_data_quantity (quantity b) typed ≤ quantity b).
Proof.
  intros Hav Hnn Hb Hlt. split; [|split].
  - pose proof (Hnn bid b Hb). unfold dispose. rewrite Hav, Hb. cbn [negb].
    destruct (Z.leb_spec q 0); [lia|].
    destruct (Z.ltb_spec (quantity b) q); [done | lia].
  - intros. by apply dispose_nonneg.
  - intros typed. apply dispose_dialog_within_batch.
Qed.

(** C9. On a reachable, consistent store: [delete_batch] on a batch above
    quantity 0 fails with [BatchNotEmpty] and the store is unchanged; on a
    batch at quantity 0 it succeeds and the batch is gone; a batch disposed
    down to 0 can then be deleted.  The page's own handler refuses a
    selected batch above 0 before any request is made, and offers the
    delete button exactly at quantity 0. *)
Theorem delete_batch_only_when_empty (rq : request) (bid : Z) s b :
  available rq = true →
  ledger_ok s →
  batches s !! bid = Some b →
  (0 < quantity b → delete_batch rq bid s = (Err BatchNotEmpty, s))
  ∧ (quantity b = 0 →
       ∃ s', delete_batch rq bid s = (Ok tt, s')
             ∧ batches s' = delete bid (batches s)
             ∧ batches s' !! bid = None
             ∧ products s' = products s)
  ∧ (0 < quantity b → is_Some (products s !! product_id b) →
       ∀ why, ∃ b0 s1 s2,
         dispose rq bid (quantity b) why s = (Ok b0, s1)
         ∧ quantity b0 = 0
         ∧ delete_batch rq bid s1 = (Ok tt, s2)
         ∧ batches s2 !! bid = None)
  ∧ (0 < quantity b →
       ∀ confirmed,
         ProductDetail.delete_batch (Some b) confirmed rq s
         = ([ProductDetail.error
               "Cannot delete batch with remaining stock. Please dispose of all stock first."], s))
  ∧ (ProductDetail.delete_batch_btn (ProductDetail.on_batch_selected (Some b)) = true
     ↔ quantity b = 0).
Proof.
  intros Hav Hok Hb. pose proof Hok as [Hstock Hids].
  split; [|split; [|split; [|split]]].
  - intros Hpos. unfold delete_batch. rewrite Hav, Hb. cbn [negb].
    destruct (Z.ltb_spec 0 (quantity b)); [done | lia].
  - intros Hzero.
    destruct (delete_batch_success rq bid s b Hstock Hav Hb Hzero)
      as (s' & Hdel & Hprod & Hbat & _).
    exists s'. repeat split; [done..| |done].
    rewrite Hbat. apply lookup_delete_eq.
  - intros Hpos [p Hp] why.
    destruct (dispose_success rq bid (quantity b) why s b p Hstock Hav Hb Hpos
                ltac:(lia) Hp) as (s1 & Hdisp & _ & Hbat1 & _).
    pose proof (dispose_preserves rq bid (quantity b) why s Hok) as Hok1.
    rewrite Hdisp in Hok1. cbn [snd] in Hok1. destruct Hok1 as [Hstock1 _].
    assert (Hb1 : batches s1 !! bid = Some (set_quantity b (quantity b - quantity b))).
    { rewrite Hbat1. apply lookup_insert_eq. }
    destruct (delete_batch_success rq bid s1 _ Hstock1 Hav Hb1)
      as (s2 & Hdel & _ & Hbat2 & _).
    { cbn. lia. }
    exists (set_quantity b (quantity b - quantity b)), s1, s2.
    repeat split; [done | cbn; lia | done |].
    rewrite Hbat2. apply lookup_delete_eq.
  - intros Hpos confirmed. unfold ProductDetail.delete_batch.
    destruct (Z.ltb_spec 0 (quantity b)); [done | lia].
  - cbn. apply Z.eqb_eq.
Qed.

End ledger.

(** *** The scenario of the specification

    Product 1 with no stock; batch 1 (5 units, expiring 2024-01-01) and
    batch 2 (3 units, expiring 2024-06-01) are added, batch 1 is disposed
    of entirely and then deleted. *)

Definition milk : Ledger.Product :=
  {| Ledger.prod_id := 1; Ledger.name := "Milk"; Ledger.category_id := 1;
     Ledger.price := (150 # 1)%Q; Ledger.min_stock_level := 10;
     Ledger.stock_level := 0 |}.

Definition fresh_store : Ledger.store :=
  {| Ledger.counters := ∅; Ledger.products := {[ 1 := milk ]};
     Ledger.batches := ∅; Ledger.logs := [] |}.

Definition manager : Ledger.request :=
  {| Ledger.available := true; Ledger.actor := 1001; Ledger.now := 738869 |}.

Definition restock : list (Ledger.request * Ledger.op) :=
  [ (manager, Ledger.AddBatch 1 5 (Some 738886) "Restock");
    (manager, Ledger.AddBatch 1 3 (Some 739038) "Restock") ].

Definition clear_first : list (Ledger.request * Ledger.op) :=
  [ (manager, Ledger.Dispose 1 5 "Expired");
    (manager, Ledger.DeleteBatch 1) ].

Definition stocked_store : Ledger.store := (Ledger.run restock fresh_store).2.

Lemma fresh_store_ok : Ledger.ledger_ok fresh_store.
Proof.
  split.
  - intros pid p Hp. unfold fresh_store in Hp. cbn [Ledger.products] in Hp.
    apply lookup_singleton_Some in Hp as [<- <-]. reflexivity.
  - intros bid b Hb. unfold fresh_store in Hb. cbn [Ledger.batches] in Hb.
    by rewrite lookup_empty in Hb.
Qed.

Lemma fresh_store_nonneg : Ledger.quantities_nonneg fresh_store.
Proof.
  intros bid b Hb. unfold fresh_store in Hb. cbn [Ledger.batches] in Hb.
  by rewrite lookup_empty in Hb.
Qed.

Lemma stocked_store_ok : Ledger.ledger_ok stocked_store.
Proof. apply run_preserves, fresh_store_ok. Qed.

Lemma stocked_store_nonneg : Ledger.quantities_nonneg stocked_store.
Proof. apply run_nonneg, fresh_store_nonneg. Qed.

Lemma stock_level_equals_batch_sum_witness :
  (∀ p, Ledger.products (Ledger.run (restock ++ clear_first) fresh_store).2 !! 1 = Some p →
        Ledger.stock_level p = 3)
  ∧ Some Ledger.ConsistencyViolation
      ∉ (Ledger.run (restock ++ clear_first) fresh_store).1.
Proof.
  destruct (stock_level_equals_batch_sum (restock ++ clear_first) fresh_store
              fresh_store_ok) as (Hsum & _ & Hquiet).
  split.
  - intros p Hp. rewrite (Hsum 1 p Hp). vm_compute. reflexivity.
  - exact (Hquiet fresh_store_nonneg).
Defined.

Lemma dispose_insufficient_quantity_witness :
  Ledger.dispose manager 1 6 "Damaged" stocked_store
  = (Ledger.Err Ledger.InsufficientQuantity, stocked_store).
Proof.
  refine (proj1 (dispose_insufficient_quantity manager 1 6 "Damaged" stocked_store
           {| Ledger.batch_id := 1; Ledger.product_id := 1; Ledger.quantity := 5;
              Ledger.expiration_date := Some 738886; Ledger.created_at := 738869;
              Ledger.reason := "Restock" |} _ _ _ _)).
  - reflexivity.
  - exact stocked_store_nonneg.
  - vm_compute. reflexivity.
  - cbn. lia.
Defined.

Definition first_batch (q : Z) : Ledger.StockBatch :=
  {| Ledger.batch_id := 1; Ledger.product_id := 1; Ledger.quantity := q;
     Ledger.expiration_date := Some 738886; Ledger.created_at := 738869;
     Ledger.reason := "Restock" |}.

Definition emptied_store : Ledger.store :=
  (Ledger.run [(manager, Ledger.Dispose 1 5 "Expired")] stocked_store).2.

Lemma emptied_store_ok : Ledger.ledger_ok emptied_store.
Proof. apply run_preserves, stocked_store_ok. Qed.

Lemma delete_batch_only_when_empty_witness :
  Ledger.delete_batch manager 1 stocked_store
    = (Ledger.Err Ledger.BatchNotEmpty, stocked_store)
  ∧ (∃ s', Ledger.delete_batch manager 1 emptied_store = (Ledger.Ok tt, s')
           ∧ Ledger.batches s' !! 1 = None)
  ∧ (∃ b0 s1 s2,
       Ledger.dispose manager 1 5 "Expired" stocked_store = (Ledger.Ok b0, s1)
       ∧ Ledger.delete_batch manager 1 s1 = (Ledger.Ok tt, s2)).
Proof.
  assert (Hfull : Ledger.batches stocked_store !! 1 = Some (first_batch 5))
    by (vm_compute; reflexivity).
  assert (Hempty : Ledger.batches emptied_store !! 1 = Some (first_batch 0))
    by (vm_compute; reflexivity).
  destruct (delete_batch_only_when_empty manager 1 stocked_store (first_batch 5)
              eq_refl stocked_store_ok Hfull) as (Hrefuse & _ & Hthen & _).
  destruct (delete_batch_only_when_empty manager 1 emptied_store (first_batch 0)
              eq_refl emptied_store_ok Hempty) as (_ & Hremove & _).
  split; [|split].
  - apply Hrefuse. cbn. lia.
  - destruct (Hremove eq_refl) as (s' & Hdel & _ & Hgone & _). by exists s'.
  - destruct (Hthen ltac:(cbn; lia) ltac:(vm_compute; eauto) "Expired")
      as (b0 & s1 & s2 & Hdisp & _ & Hdel & _).
    by exists b0, s1, s2.
Defined.

(** The rest of the scenario, evaluated. *)
Example scenario_outcomes :
  (Ledger.run (restock ++ clear_first) fresh_store).1 = [None; None; None; None].
Proof. vm_compute. reflexivity. Qed.

Example scenario_delete_succeeds :
  Ledger.batches (Ledger.run (restock ++ clear_first) fresh_store).2 !! 1 = None
  ∧ Ledger.stock_level
      <$> Ledger.products (Ledger.run (restock ++ clear_first) fresh_store).2 !! 1
    = Some 3.
Proof. vm_compute. split; reflexivity. Qed.

(** ** Rounding *)

Section rounding.
Local Open Scope Q_scope.

Lemma py_sumQ_acc (xs : list Q) (a : Q) :
  fold_left Qplus xs a == a + fold_left Qplus xs 0.
Proof.
  revert a. induction xs as [|x xs IH]; intros a; simpl.
  - lra.
  - rewrite (IH (a + x)), (IH (0 + x)). lra.
Qed.

Lemma py_sumQ_cons (x : Q) (xs : list Q) : py_sumQ (x :: xs) == x + py_sumQ xs.
Proof. unfold py_sumQ. simpl. rewrite py_sumQ_acc. lra. Qed.

Lemma round_half_even_near (x : Q) :
  Qabs (inject_Z (round_half_even x) - x) <= 1 # 2.
Proof.
  pose proof (Qfloor_le x) as Hlo. pose proof (Qlt_floor x) as Hhi.
  rewrite inject_Z_plus in Hhi. change (inject_Z 1) with 1 in Hhi.
  apply Qabs_Qle_condition. unfold round_half_even.
  destruct (Qcompare_spec (x - inject_Z (Qfloor x)) (1 # 2)) as [He|Hl|Hg].
  - destruct (Z.even (Qfloor x)).
    + lra.
    + rewrite inject_Z_plus. change (inject_Z 1) with 1. lra.
  - lra.
  - rewrite inject_Z_plus. change (inject_Z 1) with 1. lra.
Qed.

Lemma round2_hundredths (x : Q) :
  round2 x == inject_Z (round_half_even (x * inject_Z 100)) * (1 # 100).
Proof. reflexivity. Qed.

(** Rounding to two decimals moves a figure by at most half a hundredth. *)
Lemma round2_near (x : Q) : Qabs (round2 x - x) <= 1 # 200.
Proof.
  rewrite round2_hundredths.
  pose proof (round_half_even_near (x * inject_Z 100)) as H.
  apply Qabs_Qle_condition in H. apply Qabs_Qle_condition.
  change (inject_Z 100) with (100 # 1) in *. lra.
Qed.

Lemma round_half_even_integer (x : Q) (z : Z) :
  x == inject_Z z → round_half_even x = z.
Proof.
  intros Hx. unfold round_half_even.
  rewrite (Qfloor_comp _ _ Hx), Qfloor_Z.
  destruct (Qcompare_spec (x - inject_Z z) (1 # 2)) as [He|Hl|Hg]; [lra | done | lra].
Qed.

(** A figure that already has at most two decimals is left as it is. *)
Lemma round2_exact (x : Q) (z : Z) : x * inject_Z 100 == inject_Z z → round2 x == x.
Proof.
  intros Hx. rewrite round2_hundredths, (round_half_even_integer _ z Hx), <- Hx.
  change (inject_Z 100) with (100 # 1). lra.
Qed.

(** *** Binary64 *)

Lemma round_half_even_le (x : Q) (z : Z) :
  x <= inject_Z z → (round_half_even x ≤ z)%Z.
Proof.
  intros Hx.
  assert (Hf : (Qfloor x ≤ z)%Z).
  { rewrite <- (Qfloor_Z z). by apply Qfloor_resp_le. }
  assert (Hup : inject_Z (Qfloor x) < x → (Qfloor x + 1 ≤ z)%Z).
  { intros Hlt. assert (inject_Z (Qfloor x) < inject_Z z) as Hz by lra.
    rewrite <- Zlt_Qlt in Hz. lia. }
  unfold round_half_even.
  destruct (Qcompare_spec (x - inject_Z (Qfloor x)) (1 # 2)) as [He|Hl|Hg].
  - destruct (Z.even (Qfloor x)); [done|]. apply Hup. lra.
  - done.
  - apply Hup. lra.
Qed.

Lemma round_half_even_ge (x : Q) (z : Z) :
  inject_Z z <= x → (z ≤ round_half_even x)%Z.
Proof.
  intros Hx.
  assert (Hf : (z ≤ Qfloor x)%Z).
  { rewrite <- (Qfloor_Z z). by apply Qfloor_resp_le. }
  unfold round_half_even.
  destruct (Qcompare_spec (x - inject_Z (Qfloor x)) (1 # 2)) as [He|Hl|Hg];
    [destruct (Z.even (Qfloor x))|..]; lia.
Qed.

Lemma pow2_pos (e : Z) : 0 < pow2 e.
Proof. apply Qpower_0_lt. reflexivity. Qed.

Lemma pow2_le (a b : Z) : (a ≤ b)%Z → pow2 a <= pow2 b.
Proof. intros H. apply Qpower_le_compat_l; [done | discriminate]. Qed.

Lemma pow2_le_inv (a b : Z) : pow2 a <= pow2 b → (a ≤ b)%Z.
Proof. intros H. apply (Qpower_le_compat_l_inv (2 # 1)); [done | reflexivity]. Qed.

Lemma pow2_add (a b : Z) : pow2 (a + b) == pow2 a * pow2 b.
Proof. apply Qpower_plus. discriminate. Qed.

Lemma pow2_Z (n : Z) : (0 ≤ n)%Z → pow2 n == inject_Z (2 ^ n).
Proof. intros H. unfold pow2. by rewrite Zpower_Qpower. Qed.

(** The exponent is not above the one of the value. *)
Lemma exponent_below (x : Q) : 0 < x → pow2 (exponent x) <= x.
Proof.
  intros Hx. unfold exponent.
  set (a := Z.log2 (Qnum x)). set (b := Z.log2 (Z.pos (Qden x))).
  destruct (Qle_bool (pow2 (a - b)) x) eqn:Htest.
  - by apply Qle_bool_iff.
  - clear Htest.
    assert (Hn : (0 < Qnum x)%Z).
    { destruct x as [n d]. unfold Qlt in Hx. cbn in *. lia. }
    assert (Ha : (0 ≤ a)%Z) by apply Z.log2_nonneg.
    assert (Hb : (0 ≤ b)%Z) by apply Z.log2_nonneg.
    destruct (Z.log2_spec (Qnum x) Hn) as [Hlo _].
    destruct (Z.log2_spec (Z.pos (Qden x)) ltac:(lia)) as [_ Hhi].
    fold a in Hlo. fold b in Hhi.
    assert (Hsplit : pow2 a == pow2 (a - b - 1) * pow2 (b + 1)).
    { rewrite <- pow2_add. by replace (a - b - 1 + (b + 1))%Z with a by lia. }
    rewrite (pow2_Z a), (pow2_Z (b + 1)) in Hsplit by lia.
    pose proof (pow2_pos (a - b - 1)) as Hp.
    assert (Hxd : x * inject_Z (Z.pos (Qden x)) == inject_Z (Qnum x)).
    { destruct x as [n d]. unfold Qeq. cbn. lia. }
    assert (HA : inject_Z (2 ^ a) <= inject_Z (Qnum x)) by (by rewrite <- Zle_Qle).
    assert (HB : inject_Z (Z.pos (Qden x)) <= inject_Z (2 ^ (b + 1))).
    { rewrite <- Zle_Qle. unfold Z.succ in Hhi. lia. }
    assert (HD : 0 < inject_Z (Z.pos (Qden x))).
    { change 0 with (inject_Z 0). rewrite <- Zlt_Qlt. lia. }
    set (P := pow2 (a - b - 1)) in *.
    set (D := inject_Z (Z.pos (Qden x))) in *.
    set (B := inject_Z (2 ^ (b + 1))) in *.
    set (A := inject_Z (2 ^ a)) in *.
    set (N := inject_Z (Qnum x)) in *.
    destruct (Qlt_le_dec x P) as [Hlt|Hle]; [|done].
    exfalso. nra.
Qed.


Lemma exponent_above (x : Q) : 0 < x → x < pow2 (exponent x + 1).
Proof.
  intros Hx. unfold exponent.
  set (a := Z.log2 (Qnum x)). set (b := Z.log2 (Z.pos (Qden x))).
  destruct (Qle_bool (pow2 (a - b)) x) eqn:Htest.
  - clear Htest.
    assert (Hn : (0 < Qnum x)%Z).
    { destruct x as [n d]. unfold Qlt in Hx. cbn in *. lia. }
    assert (Ha : (0 ≤ a)%Z) by apply Z.log2_nonneg.
    assert (Hb : (0 ≤ b)%Z) by apply Z.log2_nonneg.
    destruct (Z.log2_spec (Qnum x) Hn) as [_ Hhi].
    destruct (Z.log2_spec (Z.pos (Qden x)) ltac:(lia)) as [Hlo _].
    fold a in Hhi. fold b in Hlo.
    assert (Hsplit : pow2 (a + 1) == pow2 (a - b + 1) * pow2 b).
    { rewrite <- pow2_add. by replace (a - b + 1 + b)%Z with (a + 1)%Z by lia. }
    rewrite (pow2_Z (a + 1)), (pow2_Z b) in Hsplit by lia.
    pose proof (pow2_pos (a - b + 1)) as Hp.
    assert (Hxd : x * inject_Z (Z.pos (Qden x)) == inject_Z (Qnum x)).
    { destruct x as [n d]. unfold Qeq. cbn. lia. }
    assert (HA : inject_Z (Qnum x) < inject_Z (2 ^ (a + 1))).
    { rewrite <- Zlt_Qlt. unfold Z.succ in Hhi. lia. }
    assert (HB : inject_Z (2 ^ b) <= inject_Z (Z.pos (Qden x))) by (by rewrite <- Zle_Qle).
    assert (HD : 0 < inject_Z (2 ^ b)).
    { change 0 with (inject_Z 0). rewrite <- Zlt_Qlt. lia. }
    set (P := pow2 (a - b + 1)) in *.
    set (D := inject_Z (Z.pos (Qden x))) in *.
    set (B := inject_Z (2 ^ b)) in *.
    set (A := inject_Z (2 ^ (a + 1))) in *.
    set (N := inject_Z (Qnum x)) in *.
    destruct (Qlt_le_dec x P) as [Hlt|Hle]; [done|].
    exfalso. nra.
  - replace (a - b - 1 + 1)%Z with (a - b)%Z by lia.
    apply Qnot_le_lt. intros Hle. apply Qle_bool_iff in Hle. congruence.
Qed.

(** A value of at most [2^k] has an exponent of at most [k]. *)
Lemma exponent_le (x : Q) (k : Z) :
  0 <= x → x <= pow2 k → (0 ≤ k)%Z → (exponent x ≤ k)%Z.
Proof.
  intros Hx Hk Hk0.
  destruct (Qlt_le_dec 0 x) as [Hpos|Hzero].
  - apply pow2_le_inv. pose proof (exponent_below x Hpos). lra.
  - assert (Hn : Qnum x = 0%Z).
    { destruct x as [n d]. unfold Qle in *. cbn in *. lia. }
    unfold exponent. rewrite Hn. change (Z.log2 0) with 0%Z.
    pose proof (Z.log2_nonneg (Z.pos (Qden x))).
    destruct (Qle_bool _ _); lia.
Qed.

Lemma quantum_le (x : Q) (k : Z) :
  Qabs x <= pow2 k → (0 ≤ k)%Z →
  (Z.max (exponent (Qabs x)) (-1022) ≤ k)%Z.
Proof.
  intros Hx Hk. pose proof (exponent_le (Qabs x) k (Qabs_nonneg x) Hx Hk). lia.
Qed.

(** Rounding to binary64 moves a value of at most [2^k] by at most
    [2^(k-53)], half a unit in its last place. *)
Lemma binary64_near (x : Q) (k : Z) :
  Qabs x <= pow2 k → (0 ≤ k)%Z → Qabs (binary64 x - x) <= pow2 (k - 53).
Proof.
  intros Hx Hk. pose proof (quantum_le x k Hx Hk) as He.
  unfold binary64. set (e := Z.max (exponent (Qabs x)) (-1022)) in *.
  pose proof (pow2_pos (e - 52)) as Hq.
  pose proof (round_half_even_near (x / pow2 (e - 52))) as Hr.
  assert (Hhalf : pow2 (e - 52) * (1 # 2) <= pow2 (k - 53)).
  { replace (e - 52)%Z with (e - 53 + 1)%Z by lia. rewrite pow2_add.
    pose proof (pow2_le (e - 53) (k - 53) ltac:(lia)).
    change (pow2 1) with 2. lra. }
  assert (Hx' : x == x / pow2 (e - 52) * pow2 (e - 52)).
  { field. lra. }
  set (q := pow2 (e - 52)) in *. set (y := x / q) in *.
  set (R := inject_Z (round_half_even y)) in *.
  apply Qabs_Qle_condition in Hr. apply Qabs_Qle_condition.
  split; nra.
Qed.

Lemma binary64_le_Z (x : Q) (b k : Z) :
  x <= inject_Z b → Qabs x <= pow2 k → (0 ≤ k ≤ 52)%Z →
  binary64 x <= inject_Z b.
Proof.
  intros Hb Hx Hk. pose proof (quantum_le x k Hx ltac:(lia)) as He.
  unfold binary64. set (e := Z.max (exponent (Qabs x)) (-1022)) in *.
  pose proof (pow2_pos (e - 52)) as Hq.
  assert (Hinv : pow2 (e - 52) * inject_Z (2 ^ (52 - e)) == 1).
  { rewrite <- pow2_Z, <- pow2_add by lia.
    by replace (e - 52 + (52 - e))%Z with 0%Z by lia. }
  assert (Hx' : x / pow2 (e - 52) == x * inject_Z (2 ^ (52 - e))).
  { apply (Qmult_inj_r _ _ (pow2 (e - 52))); [lra|].
    rewrite <- Qmult_assoc, (Qmult_comm (inject_Z _)), Hinv. field. lra. }
  assert (Hr : (round_half_even (x / pow2 (e - 52)) ≤ b * 2 ^ (52 - e))%Z).
  { apply round_half_even_le. rewrite Hx', inject_Z_mult.
    assert (0 <= inject_Z (2 ^ (52 - e))).
    { change 0 with (inject_Z 0). rewrite <- Zle_Qle. lia. }
    nra. }
  rewrite Zle_Qle, inject_Z_mult in Hr.
  set (q := pow2 (e - 52)) in *. set (M := inject_Z (2 ^ (52 - e))) in *.
  set (R := inject_Z (round_half_even (x / q))) in *.
  set (B := inject_Z b) in *.
  pose proof (Qmult_le_compat_r _ _ q Hr (Qlt_le_weak _ _ Hq)) as Hrq.
  assert (HB : B * M * q == B * (q * M)) by ring.
  rewrite Hinv in HB. lra.
Qed.

Lemma binary64_ge_Z (x : Q) (a k : Z) :
  inject_Z a <= x → Qabs x <= pow2 k → (0 ≤ k ≤ 52)%Z →
  inject_Z a <= binary64 x.
Proof.
  intros Ha Hx Hk. pose proof (quantum_le x k Hx ltac:(lia)) as He.
  unfold binary64. set (e := Z.max (exponent (Qabs x)) (-1022)) in *.
  pose proof (pow2_pos (e - 52)) as Hq.
  assert (Hinv : pow2 (e - 52) * inject_Z (2 ^ (52 - e)) == 1).
  { rewrite <- pow2_Z, <- pow2_add by lia.
    by replace (e - 52 + (52 - e))%Z with 0%Z by lia. }
  assert (Hx' : x / pow2 (e - 52) == x * inject_Z (2 ^ (52 - e))).
  { apply (Qmult_inj_r _ _ (pow2 (e - 52))); [lra|].
    rewrite <- Qmult_assoc, (Qmult_comm (inject_Z _)), Hinv. field. lra. }
  assert (Hr : (a * 2 ^ (52 - e) ≤ round_half_even (x / pow2 (e - 52)))%Z).
  { apply round_half_even_ge. rewrite Hx', inject_Z_mult.
    assert (0 <= inject_Z (2 ^ (52 - e))).
    { change 0 with (inject_Z 0). rewrite <- Zle_Qle. lia. }
    nra. }
  rewrite Zle_Qle, inject_Z_mult in Hr.
  set (q := pow2 (e - 52)) in *. set (M := inject_Z (2 ^ (52 - e))) in *.
  set (R := inject_Z (round_half_even (x / q))) in *.
  set (A := inject_Z a) in *.
  pose proof (Qmult_le_compat_r _ _ q Hr (Qlt_le_weak _ _ Hq)) as Hrq.
  assert (HA : A * M * q == A * (q * M)) by ring.
  rewrite Hinv in HA. lra.
Qed.


Lemma round2_between (x : Q) : 0 <= x <= inject_Z 100 → 0 <= round2 x <= inject_Z 100.
Proof.
  intros [Hlo Hhi]. rewrite round2_hundredths.
  change (inject_Z 100) with (100 # 1) in *.
  pose proof (round_half_even_ge (x * (100 # 1)) 0) as Hge.
  pose proof (round_half_even_le (x * (100 # 1)) 10000) as Hle.
  change (inject_Z 0) with 0 in Hge. change (inject_Z 10000) with (10000 # 1) in Hle.
  specialize (Hge ltac:(lra)). specialize (Hle ltac:(lra)).
  rewrite Zle_Qle in Hge, Hle.
  change (inject_Z 0) with 0 in Hge. change (inject_Z 10000) with (10000 # 1) in Hle.
  lra.
Qed.

Lemma Qabs_between (x lo hi b : Q) : lo <= x <= hi → - b <= lo → hi <= b → Qabs x <= b.
Proof. intros [H1 H2] H3 H4. apply Qabs_Qle_condition. split; lra. Qed.

(** A percentage between 0 and 100 stays there when rounded for display,
    and moves by at most half a hundredth and one rounding to binary64. *)
Lemma round2_float_between (x : Q) :
  0 <= x <= inject_Z 100 → 0 <= round2_float x <= inject_Z 100.
Proof.
  intros Hx. destruct (round2_between x Hx) as [Hlo Hhi].
  assert (Hmag : Qabs (round2 x) <= pow2 7).
  { apply (Qabs_between _ 0 (inject_Z 100)); [done|..];
      change (pow2 7) with (128 # 1); change (inject_Z 100) with (100 # 1); lra. }
  unfold round2_float. split.
  - change 0 with (inject_Z 0). by apply (binary64_ge_Z _ 0 7).
  - by apply (binary64_le_Z _ 100 7).
Qed.

Lemma round2_float_near (x : Q) :
  0 <= x <= inject_Z 100 → Qabs (round2_float x - x) <= (1 # 200) + pow2 (-46).
Proof.
  intros Hx. destruct (round2_between x Hx) as [Hlo Hhi].
  assert (Hmag : Qabs (round2 x) <= pow2 7).
  { apply (Qabs_between _ 0 (inject_Z 100)); [done|..];
      change (pow2 7) with (128 # 1); change (inject_Z 100) with (100 # 1); lra. }
  pose proof (binary64_near (round2 x) 7 Hmag ltac:(lia)) as H1.
  pose proof (round2_near x) as H2.
  change (pow2 (7 - 53)) with (pow2 (-46)) in H1.
  unfold round2_float.
  apply Qabs_Qle_condition in H1, H2. apply Qabs_Qle_condition. split; lra.
Qed.

(** [a / b * 100] in floats, for [0 <= a <= b]. *)
Lemma percent_between (a b : Z) :
  (0 ≤ a ≤ b)%Z → (0 < b)%Z →
  0 <= times_100 (binary64 (inject_Z a / inject_Z b)) <= inject_Z 100.
Proof.
  intros [Ha Hab] Hb.
  assert (Hb' : 0 < inject_Z b) by (by rewrite (Zlt_Qlt 0 b) in Hb).
  rewrite Zle_Qle in Ha, Hab. change (inject_Z 0) with 0 in Ha.
  assert (Hq0 : 0 <= inject_Z a / inject_Z b) by (apply Qle_shift_div_l; lra).
  assert (Hq1 : inject_Z a / inject_Z b <= 1) by (apply Qle_shift_div_r; lra).
  set (x := inject_Z a / inject_Z b) in *.
  assert (Hmag : Qabs x <= pow2 0).
  { apply (Qabs_between _ 0 1); [done|..]; change (pow2 0) with 1; lra. }
  pose proof (binary64_ge_Z x 0 0 Hq0 Hmag ltac:(lia)) as Hf0.
  pose proof (binary64_le_Z x 1 0 Hq1 Hmag ltac:(lia)) as Hf1.
  change (inject_Z 0) with 0 in Hf0. change (inject_Z 1) with 1 in Hf1.
  set (f := binary64 x) in *.
  assert (Hmag' : Qabs (f * inject_Z 100) <= pow2 7).
  { apply (Qabs_between _ 0 (inject_Z 100));
      change (pow2 7) with (128 # 1); change (inject_Z 100) with (100 # 1);
      [split|..]; lra. }
  unfold times_100. split.
  - change 0 with (inject_Z 0). apply (binary64_ge_Z _ 0 7); [|done|lia].
    change (inject_Z 0) with 0. change (inject_Z 100) with (100 # 1). lra.
  - apply (binary64_le_Z _ 100 7); [|done|lia].
    change (inject_Z 100) with (100 # 1). lra.
Qed.

Lemma percent_near (a b : Z) :
  (0 ≤ a ≤ b)%Z → (0 < b)%Z →
  Qabs (times_100 (binary64 (inject_Z a / inject_Z b))
        - inject_Z a / inject_Z b * inject_Z 100) <= pow2 (-45).
Proof.
  intros [Ha Hab] Hb.
  assert (Hb' : 0 < inject_Z b) by (by rewrite (Zlt_Qlt 0 b) in Hb).
  rewrite Zle_Qle in Ha, Hab. change (inject_Z 0) with 0 in Ha.
  assert (Hq0 : 0 <= inject_Z a / inject_Z b) by (apply Qle_shift_div_l; lra).
  assert (Hq1 : inject_Z a / inject_Z b <= 1) by (apply Qle_shift_div_r; lra).
  set (x := inject_Z a / inject_Z b) in *.
  assert (Hmag : Qabs x <= pow2 0).
  { apply (Qabs_between _ 0 1); [done|..]; change (pow2 0) with 1; lra. }
  pose proof (binary64_ge_Z x 0 0 Hq0 Hmag ltac:(lia)) as Hf0.
  pose proof (binary64_le_Z x 1 0 Hq1 Hmag ltac:(lia)) as Hf1.
  pose proof (binary64_near x 0 Hmag ltac:(lia)) as Hn1.
  change (inject_Z 0) with 0 in Hf0. change (inject_Z 1) with 1 in Hf1.
  set (f := binary64 x) in *.
  assert (Hmag' : Qabs (f * inject_Z 100) <= pow2 7).
  { apply (Qabs_between _ 0 (inject_Z 100));
      change (pow2 7) with (128 # 1); change (inject_Z 100) with (100 # 1);
      [split|..]; lra. }
  pose proof (binary64_near _ 7 Hmag' ltac:(lia)) as Hn2.
  unfold times_100.
  change (pow2 (0 - 53)) with (1 # 9007199254740992) in Hn1.
  change (pow2 (7 - 53)) with (1 # 70368744177664) in Hn2.
  change (pow2 (-45)) with (1 # 35184372088832).
  change (inject_Z 100) with (100 # 1) in *.
  apply Qabs_Qle_condition in Hn1, Hn2. apply Qabs_Qle_condition. split; lra.
Qed.

(** Sums of figures that are pairwise within [eps] are within [n * eps]. *)
Lemma py_sumQ_near (eps : Q) (xs ys : list Q) :
  Forall2 (λ x y, Qabs (x - y) <= eps) xs ys →
  Qabs (py_sumQ xs - py_sumQ ys) <= inject_Z (Z.of_nat (length xs)) * eps.
Proof.
  induction 1 as [|x y xs ys Hxy _ IH].
  - apply Qabs_Qle_condition. unfold py_sumQ. cbn [fold_left length Z.of_nat].
    change (inject_Z (Z.of_nat 0)) with 0. split; lra.
  - cbn [length]. rewrite !py_sumQ_cons, Nat2Z.inj_succ.
    unfold Z.succ. rewrite inject_Z_plus.
    apply Qabs_Qle_condition in IH, Hxy. apply Qabs_Qle_condition.
    change (inject_Z 1) with 1. split; lra.
Qed.

Lemma round2_float_zero : round2_float (inject_Z 0) == 0.
Proof. vm_compute. reflexivity. Qed.

End rounding.

(** ** The reports *)

Section reports.
Import Ledger ReportGenerator.

(** *** Sales *)

(** C7. Report 6 is report 1: on the same clock, data and arguments
    (given or omitted) the two return the same result, down to the report
    id and name; omitted dates mean the 30 days ending today in both. *)
Theorem detailed_report_is_sales_report
    (today : Z) (db : session) (start_date end_date : option Z) :
  detailed_sales_transaction_report today db start_date end_date
  = sales_performance_report today db start_date end_date
  ∧ report_id (detailed_sales_transaction_report today db start_date end_date) = 1
  ∧ report_name (detailed_sales_transaction_report today db start_date end_date)
    = "Sales Performance Report"
  ∧ date_range (detailed_sales_transaction_report today db start_date end_date)
    = (default (today - 30) start_date, default today end_date).
Proof.
  unfold detailed_sales_transaction_report.
  split; [reflexivity|].
  destruct start_date, end_date; repeat split.
Qed.

(** The rows of the query are the joined sale lines of the date range. *)
Lemma sales_query_rows (db : session) (start_date end_date : Z) (r : result_row) :
  r ∈ sales_query db start_date end_date ↔
  ∃ s i p u,
    s ∈ sales db ∧ i ∈ sale_items db ∧ p ∈ product_table db ∧ u ∈ users db
    ∧ sale_id s = item_sale_id i ∧ item_product_id i = prod_id p
    ∧ retailer_id s = uid u
    ∧ midnight start_date ≤ sale_created_at s ≤ midnight end_date
    ∧ r = {| r_sale_id := sale_id s; r_created_at := sale_created_at s;
             r_product_name := name p; r_quantity := item_quantity i;
             r_line_total := line_total i; r_retailer_name := full_name u |}.
Proof.
  unfold sales_query. rewrite merge_sort_Permutation, list_elem_of_filter.
  setoid_rewrite list_elem_of_bind. split.
  - intros [Hrange (s & Hr & Hs)].
    apply list_elem_of_bind in Hr as (i & Hr & Hi).
    apply list_elem_of_filter in Hi as [Hsi Hi].
    apply list_elem_of_bind in Hr as (p & Hr & Hp).
    apply list_elem_of_filter in Hp as [Hip Hp].
    apply list_elem_of_bind in Hr as (u & Hr & Hu).
    apply list_elem_of_filter in Hu as [Hsu Hu].
    apply list_elem_of_singleton in Hr. subst r. cbn [r_created_at] in Hrange.
    exists s, i, p, u. repeat split; (done || lia).
  - intros (s & i & p & u & Hs & Hi & Hp & Hu & Hsi & Hip & Hsu & Hrange & ->).
    split; [cbn [r_created_at]; lia|].
    exists s. split; [|done].
    apply list_elem_of_bind. exists i. split; [|by apply list_elem_of_filter].
    apply list_elem_of_bind. exists p. split; [|by apply list_elem_of_filter].
    apply list_elem_of_bind. exists u. split; [|by apply list_elem_of_filter].
    by apply list_elem_of_singleton.
Qed.

Lemma sales_query_newest_first (db : session) (start_date end_date : Z) :
  Sorted newest_first (sales_query db start_date end_date).
Proof.
  assert (Total newest_first) by (intros a b; unfold newest_first; lia).
  apply (Sorted_merge_sort newest_first).
Qed.

(** C6. In the sales performance report the summary is computed from the
    very rows the report lists: [total_income] is the sum of their
    [total_price], rounded to two decimals (so within half a hundredth of
    the exact sum, and equal to it when the sum has at most two decimals),
    [total_quantity_sold] is the sum of their [quantity_sold], and
    [total_transactions] is the number of distinct sale ids among them. *)
Theorem sales_summary_matches_rows
    (today : Z) (db : session) (start_date end_date : option Z) :
  let r := sales_performance_report today db start_date end_date in
  let exact := py_sumQ (map total_price (sales_rows r)) in
  total_income (summary r) = round2 exact
  ∧ (Qabs (total_income (summary r) - exact) <= 1 # 200)%Q
  ∧ (∀ cents : Z, (exact * inject_Z 100 == inject_Z cents)%Q →
       (total_income (summary r) == exact)%Q)
  ∧ total_quantity_sold (summary r) = py_sum (map quantity_sold (sales_rows r))
  ∧ total_transactions (summary r)
    = size (list_to_set (map e_sale_id (sales_rows r)) : gset Z).
Proof.
  intros r exact.
  assert (Hexact : exact
                   = py_sumQ (map r_line_total
                       (sales_query db (default (today - 30) start_date)
                                       (default today end_date)))).
  { unfold exact, r, sales_performance_report. cbn [sales_rows].
    rewrite map_map. destruct start_date, end_date; reflexivity. }
  assert (Hincome : total_income (summary r) = round2 exact).
  { rewrite Hexact. unfold r, sales_performance_report.
    destruct start_date, end_date; reflexivity. }
  split; [exact Hincome|]. rewrite Hincome.
  split; [apply round2_near|].
  split; [intros cents Hc; by apply (round2_exact _ cents)|].
  unfold r, sales_performance_report. cbn [summary sales_rows
    total_quantity_sold total_transactions]. rewrite !map_map.
  split; reflexivity.
Qed.

(** *** Alerts *)

Lemma low_stock_status_out (stock min_level : Z) :
  "OUT_OF_STOCK" ∈ low_stock_status stock min_level ↔ stock = 0 ∧ 0 < min_level.
Proof.
  unfold low_stock_status.
  destruct (Z.ltb_spec stock min_level), (Z.eqb_spec stock 0);
    rewrite ?elem_of_cons, ?elem_of_nil; intuition (try done; try lia).
Qed.

Lemma low_stock_status_low (stock min_level : Z) :
  "LOW_STOCK" ∈ low_stock_status stock min_level ↔ stock ≠ 0 ∧ stock < min_level.
Proof.
  unfold low_stock_status.
  destruct (Z.ltb_spec stock min_level), (Z.eqb_spec stock 0);
    rewrite ?elem_of_cons, ?elem_of_nil; intuition (try done; try lia).
Qed.

Lemma low_stock_status_no_expiring (stock min_level : Z) :
  "EXPIRING_SOON" ∉ low_stock_status stock min_level.
Proof.
  unfold low_stock_status.
  destruct (stock <? min_level), (stock =? 0);
    rewrite ?elem_of_cons, ?elem_of_nil; intuition done.
Qed.

Lemma alert_rows_cases (cutoff_date : Z) (p : ProductRow) :
  (alert_status cutoff_date p = [] ∧ alert_rows cutoff_date p = [])
  ∨ (alert_status cutoff_date p ≠ []
     ∧ ∃ a, alert_rows cutoff_date p = [a]
            ∧ a_product_id a = prod_id (product p)
            ∧ current_stock a = stock_level (product p)
            ∧ a_alert_status a = join ", " (alert_status cutoff_date p)
            ∧ severity a = severity_of (alert_status cutoff_date p)
            ∧ a_expiration_date a
              = match expiring_batches cutoff_date p with
                | [] => None
                | bs => earliest_expiry bs
                end).
Proof.
  unfold alert_rows. destruct (alert_status cutoff_date p) as [|t ts].
  - by left.
  - right. split; [done|]. eexists. split; [reflexivity|]. by cbn.
Qed.

(** C3, as the report computes it.  [OUT_OF_STOCK] is tagged exactly when
    the stock is 0 and below the minimum (so not at a minimum of 0);
    [LOW_STOCK] exactly when the stock is below the minimum and not 0 (for
    a stock that is not negative: [0 < stock_level < min_stock_level]);
    [EXPIRING_SOON] exactly when a batch expires within the horizon.  A
    product with no tag gets no row; a product with a tag gets one row,
    [CRITICAL] exactly when [OUT_OF_STOCK] is among its tags and [WARNING]
    otherwise. *)
Theorem alert_classification (cutoff_date : Z) (p : ProductRow) :
  let stock := stock_level (product p) in
  let min_level := min_stock_level (product p) in
  let tags := alert_status cutoff_date p in
  ("OUT_OF_STOCK" ∈ tags ↔ stock = 0 ∧ 0 < min_level)
  ∧ ("LOW_STOCK" ∈ tags ↔ stock ≠ 0 ∧ stock < min_level)
  ∧ (0 ≤ stock → "LOW_STOCK" ∈ tags ↔ 0 < stock < min_level)
  ∧ ("EXPIRING_SOON" ∈ tags ↔ expiring_batches cutoff_date p ≠ [])
  ∧ (tags = [] ↔ alert_rows cutoff_date p = [])
  ∧ (∀ a, a ∈ alert_rows cutoff_date p →
       alert_rows cutoff_date p = [a]
       ∧ (severity a = "CRITICAL" ↔ "OUT_OF_STOCK" ∈ tags)
       ∧ (severity a = "WARNING" ↔ "OUT_OF_STOCK" ∉ tags)).
Proof.
  intros stock min_level tags.
  assert (Hexp : "EXPIRING_SOON" ∈ tags ↔ expiring_batches cutoff_date p ≠ []).
  { unfold tags, alert_status. rewrite elem_of_app.
    pose proof (low_stock_status_no_expiring stock min_level) as Hno.
    fold stock min_level.
    destruct (expiring_batches cutoff_date p);
      rewrite ?elem_of_cons, ?elem_of_nil; intuition done. }
  assert (Hlow : ∀ t, t ≠ "EXPIRING_SOON" →
                   t ∈ tags ↔ t ∈ low_stock_status stock min_level).
  { intros t Ht. unfold tags, alert_status. rewrite elem_of_app.
    fold stock min_level.
    destruct (expiring_batches cutoff_date p);
      rewrite ?elem_of_cons, ?elem_of_nil; intuition done. }
  split; [rewrite Hlow by done; apply low_stock_status_out|].
  split; [rewrite Hlow by done; apply low_stock_status_low|].
  split.
  { intros Hnn. rewrite Hlow by done. rewrite low_stock_status_low. lia. }
  split; [exact Hexp|].
  destruct (alert_rows_cases cutoff_date p)
    as [[Htags Hrows]|[Htags (a & Hrows & _ & _ & _ & Hsev & _)]];
    fold tags in Htags; rewrite Hrows.
  - split; [done|]. intros a Ha. by apply elem_of_nil in Ha.
  - split; [done|]. intros a' Ha'. apply list_elem_of_singleton in Ha' as ->.
    split; [done|]. rewrite Hsev. fold tags. unfold severity_of.
    destruct (decide ("OUT_OF_STOCK" ∈ tags)); split; intros; done.
Qed.

(** The report lists the rows of its products, in order. *)
Lemma alert_report_rows (today : Z) (products : list ProductRow) (days_ahead : Z) :
  alerts (low_stock_and_expiration_alert_report today products days_ahead)
  = products ≫= alert_rows (today + days_ahead).
Proof. reflexivity. Qed.

(** *** Expiring batches *)

(** Ascending by expiration date. *)
Definition expires_no_later (a b : StockBatch) : Prop :=
  match expiration_date a, expiration_date b with
  | Some x, Some y => x ≤ y
  | _, _ => True
  end.

Lemma fold_left_min_spec (ds : list Z) :
  ∀ d, let m := fold_left Z.min ds d in
       m ∈ d :: ds ∧ ∀ x, x ∈ d :: ds → m ≤ x.
Proof.
  induction ds as [|e ds IH]; intros d; cbn [fold_left].
  - split; [left|]. intros x Hx. apply list_elem_of_singleton in Hx. lia.
  - destruct (IH (Z.min d e)) as [Hin Hle]. split.
    + apply elem_of_cons in Hin as [Hin|Hin].
      * rewrite Hin. destruct (Z.min_spec d e) as [[_ ->]|[_ ->]];
          [left | right; left].
      * right. by right.
    + intros x Hx.
      assert (fold_left Z.min ds (Z.min d e) ≤ Z.min d e) by (apply Hle; left).
      apply elem_of_cons in Hx as [->|Hx]; [lia|].
      apply elem_of_cons in Hx as [->|Hx]; [lia|].
      apply Hle. by right.
Qed.

Lemma earliest_expiry_spec (bs : list StockBatch) (d : Z) :
  earliest_expiry bs = Some d →
  (∃ b, b ∈ bs ∧ expiration_date b = Some d)
  ∧ ∀ b d', b ∈ bs → expiration_date b = Some d' → d ≤ d'.
Proof.
  unfold earliest_expiry.
  destruct (omap expiration_date bs) as [|d0 ds] eqn:Hdates; [done|].
  intros [= <-]. destruct (fold_left_min_spec ds d0) as [Hin Hle].
  rewrite <- Hdates in Hin, Hle. split.
  - apply list_elem_of_omap in Hin as (b & Hb & Hd). by exists b.
  - intros b d' Hb Hd'. apply Hle, list_elem_of_omap. by exists b.
Qed.

Lemma earliest_expiry_is_Some (bs : list StockBatch) (b : StockBatch) (d : Z) :
  b ∈ bs → expiration_date b = Some d → is_Some (earliest_expiry bs).
Proof.
  intros Hb Hd. unfold earliest_expiry.
  destruct (omap expiration_date bs) as [|d0 ds] eqn:Hdates; [|by eexists].
  assert (d ∈ omap expiration_date bs) as Hin
    by (apply list_elem_of_omap; by exists b).
  rewrite Hdates in Hin. by apply elem_of_nil in Hin.
Qed.

Lemma expiring_batches_elem (cutoff_date : Z) (p : ProductRow) (b : StockBatch) :
  b ∈ expiring_batches cutoff_date p ↔
  b ∈ stock_batches p ∧ 0 < quantity b
  ∧ ∃ d, expiration_date b = Some d ∧ d ≤ cutoff_date.
Proof.
  unfold expiring_batches. rewrite list_elem_of_filter. unfold expiring.
  destruct (expiration_date b) as [d|]; split.
  - intros [[Hd Hq] Hin]. eauto.
  - intros (Hin & Hq & d' & [= <-] & Hd). done.
  - intros [[] _].
  - intros (_ & _ & d' & [=] & _).
Qed.

Lemma StronglySorted_filter {A} (R : relation A) (P : A → Prop)
    `{∀ x, Decision (P x)} (l : list A) :
  StronglySorted R l → StronglySorted R (filter P l).
Proof.
  induction 1 as [|x l Hsorted IH Hall]; [constructor|].
  rewrite filter_cons. destruct (decide (P x)); [|done].
  constructor; [done|].
  apply Forall_forall. intros y Hy. apply list_elem_of_filter in Hy as [_ Hy].
  rewrite Forall_forall in Hall. by apply Hall.
Qed.

(** C4, as the report computes it.  The expiring batches of a product are
    exactly its batches with a positive quantity and an expiration date on
    or before [today + horizon_days], listed in the order in which the
    product's [stock_batches] relation yields them (no sort is applied:
    they ascend by date when the relation already does); the date on the
    alert row is the earliest expiration date among them. *)
Theorem expiring_batches_filter (today horizon_days : Z) (p : ProductRow) :
  let cutoff_date := today + horizon_days in
  let found := expiring_batches cutoff_date p in
  (∀ b, b ∈ found ↔
        b ∈ stock_batches p ∧ 0 < quantity b
        ∧ ∃ d, expiration_date b = Some d ∧ d ≤ today + horizon_days)
  ∧ found `sublist_of` stock_batches p
  ∧ (StronglySorted expires_no_later (stock_batches p) →
     StronglySorted expires_no_later found)
  ∧ (found ≠ [] →
     ∃ a d, alert_rows cutoff_date p = [a]
            ∧ a_expiration_date a = Some d
            ∧ (∃ b, b ∈ found ∧ expiration_date b = Some d)
            ∧ ∀ b d', b ∈ found → expiration_date b = Some d' → d ≤ d').
Proof.
  intros cutoff_date found.
  split; [intros b; apply expiring_batches_elem|].
  split; [apply sublist_filter|].
  split; [apply StronglySorted_filter|].
  intros Hfound.
  destruct (alert_rows_cases cutoff_date p)
    as [[Htags _]|[_ (a & Hrows & _ & _ & _ & _ & Hdate)]].
  - exfalso. unfold alert_status in Htags. fold found in Htags.
    destruct found; [done|]. by destruct (low_stock_status _ _).
  - fold found in Hdate.
    assert (Hdate' : a_expiration_date a = earliest_expiry found)
      by (rewrite Hdate; by destruct found).
    destruct found as [|b0 rest] eqn:Hf; [done|].
    assert (Hb0 : b0 ∈ expiring_batches cutoff_date p)
      by (fold found; rewrite Hf; left).
    apply expiring_batches_elem in Hb0 as (_ & _ & d0 & Hd0 & _).
    destruct (earliest_expiry_is_Some (b0 :: rest) b0 d0) as [d Hd];
      [left | done |].
    destruct (earliest_expiry_spec _ _ Hd) as [Hwit Hmin].
    exists a, d. rewrite Hdate', Hd. done.
Qed.

(** *** Category distribution *)

(** The share as the fraction it stands for, and as the report computes
    it in floats. *)
Definition exact_share (total : Z) (c : Category) : Q :=
  (inject_Z (category_stock c) / inject_Z total * inject_Z 100)%Q.

Definition share (total : Z) (c : Category) : Q :=
  if 0 <? total
  then times_100 (binary64 (inject_Z (category_stock c) / inject_Z total))
  else inject_Z 0.

Lemma bind_singleton_map {A B} (g : A → B) (l : list A) :
  l ≫= (λ x, [g x]) = map g l.
Proof. induction l as [|x l IH]; [done|]. cbn. by rewrite IH. Qed.

(** The total is the sum of the per-category stocks. *)
Lemma total_stock_split (categories : list Category) :
  total_stock categories = py_sum (map category_stock categories).
Proof.
  unfold total_stock. induction categories as [|c cs IH]; [done|].
  rewrite bind_cons, py_sum_app, IH. cbn [map]. rewrite py_sum_cons.
  unfold category_stock. by rewrite bind_singleton_map.
Qed.

(** The guard keeps the division away from a zero divisor. *)
Lemma percentage_defined (total : Z) (c : Category) :
  percentage (category_stock c) total = Some (share total c).
Proof.
  unfold percentage, share, truediv.
  destruct (Z.ltb_spec 0 total) as [Hpos|_]; [|done].
  destruct (Z.eqb_spec total 0); [lia | done].
Qed.

Definition entry_for (total : Z) (c : Category) : category_entry :=
  {| c_category_id := cat_id c; c_category_name := cat_name c;
     number_of_products := length (cat_products c);
     total_stock_quantity := category_stock c;
     percentage_share := round2_float (share total c) |}.

Lemma category_entries (total : Z) (categories : list Category) :
  mapM (category_entry_of total) categories
  = Some (map (entry_for total) categories).
Proof.
  induction categories as [|c cs IH]; [done|].
  cbn [mapM map]. rewrite IH. unfold category_entry_of at 1.
  by rewrite percentage_defined.
Qed.

Lemma py_sum_nonneg (xs : list Z) : Forall (λ x, 0 ≤ x) xs → 0 ≤ py_sum xs.
Proof.
  induction 1 as [|x xs Hx _ IH]; [done|]. rewrite py_sum_cons. lia.
Qed.

(** No batch of the category has a negative quantity. *)
Definition stocked_nonneg (c : Category) : Prop :=
  Forall (λ p, Forall (λ b, 0 ≤ quantity b) (stock_batches p)) (cat_products c).

Lemma category_stock_nonneg (c : Category) :
  stocked_nonneg c → 0 ≤ category_stock c.
Proof.
  intros Hc. unfold category_stock. apply py_sum_nonneg.
  apply Forall_forall. intros x Hx.
  apply list_elem_of_In, in_map_iff in Hx as (p & <- & Hp).
  apply py_sum_nonneg. apply Forall_forall. intros q Hq.
  apply list_elem_of_In, in_map_iff in Hq as (b & <- & Hb).
  unfold stocked_nonneg in Hc. rewrite Forall_forall in Hc.
  specialize (Hc p ltac:(by apply list_elem_of_In)).
  rewrite Forall_forall in Hc. apply Hc. by apply list_elem_of_In.
Qed.

Lemma category_stock_le_total (categories : list Category) (c : Category) :
  Forall stocked_nonneg categories → c ∈ categories →
  category_stock c ≤ total_stock categories.
Proof.
  intros Hall Hc. rewrite total_stock_split.
  induction Hall as [|c0 l Hc0 Hl IH]; [by apply elem_of_nil in Hc|].
  cbn [map]. rewrite py_sum_cons.
  assert (0 ≤ py_sum (map category_stock l)).
  { apply py_sum_nonneg, Forall_forall. intros x Hx.
    apply list_elem_of_In, in_map_iff in Hx as (c' & <- & Hc').
    apply category_stock_nonneg. rewrite Forall_forall in Hl.
    apply Hl. by apply list_elem_of_In. }
  pose proof (category_stock_nonneg c0 Hc0).
  apply elem_of_cons in Hc as [->|Hc]; [lia|].
  specialize (IH Hc). lia.
Qed.

Section shares.
Local Open Scope Q_scope.

Lemma exact_shares_sum (total : Z) (categories : list Category) :
  (0 < total)%Z →
  py_sumQ (map (exact_share total) categories)
  == inject_Z (py_sum (map category_stock categories)) / inject_Z total * inject_Z 100.
Proof.
  intros Hpos.
  assert (Hnz : ¬ inject_Z total == 0).
  { unfold Qeq. cbn. lia. }
  induction categories as [|c cs IH].
  - cbn. field. exact Hnz.
  - cbn [map]. rewrite py_sumQ_cons, py_sum_cons, IH, inject_Z_plus.
    unfold exact_share. field. exact Hnz.
Qed.

Lemma share_between (total : Z) (c : Category) :
  (0 ≤ category_stock c ≤ total)%Z → 0 <= share total c <= inject_Z 100.
Proof.
  intros Hc. unfold share.
  destruct (Z.ltb_spec 0 total) as [Hpos|_].
  - by apply percent_between.
  - change (inject_Z 0) with 0. change (inject_Z 100) with (100 # 1). split; lra.
Qed.

(** The share a row shows is within half a hundredth, and the three
    roundings to binary64 on the way, of the fraction it stands for. *)
Lemma shown_share_near (total : Z) (c : Category) :
  (0 < total)%Z → (0 ≤ category_stock c ≤ total)%Z →
  Qabs (percentage_share (entry_for total c) - exact_share total c)
  <= (1 # 200) + pow2 (-44).
Proof.
  intros Hpos Hc. cbn [percentage_share entry_for].
  pose proof (share_between total c Hc) as Hb.
  pose proof (round2_float_near (share total c) Hb) as H1.
  unfold share in *. destruct (Z.ltb_spec 0 total) as [_|]; [|lia].
  pose proof (percent_near (category_stock c) total Hc Hpos) as H2.
  unfold exact_share.
  change (pow2 (-46)) with (1 # 70368744177664) in H1.
  change (pow2 (-45)) with (1 # 35184372088832) in H2.
  change (pow2 (-44)) with (1 # 17592186044416).
  apply Qabs_Qle_condition in H1, H2. apply Qabs_Qle_condition. split; lra.
Qed.

End shares.

(** C5. The category report never divides by zero (it always returns);
    each row's [percentage_share] is [category_stock / total_stock * 100],
    computed in floats and rounded to two decimals, when the total is
    positive, and 0 otherwise.  With a positive total the fractions
    [category_stock / total_stock * 100] sum to exactly 100; in a store
    without a negative batch quantity each share shown is within half a
    hundredth (and [2^-44] for the float roundings) of its fraction, so
    the [n] shares shown sum to 100 within [n] times that.  With a total
    of 0 every share is 0. *)
Theorem category_shares (categories : list Category) :
  let total := total_stock categories in
  ∃ r, category_distribution_report categories = Some r
       ∧ summary_total_stock r = total
       ∧ categories_rows r = map (entry_for total) categories
       ∧ (0 < total →
            (py_sumQ (map (exact_share total) categories) == inject_Z 100)%Q
            ∧ (Forall stocked_nonneg categories →
                 Forall (λ c, (Qabs (percentage_share (entry_for total c)
                                     - exact_share total c)
                               <= (1 # 200) + pow2 (-44))%Q) categories
                 ∧ (Qabs (py_sumQ (map percentage_share (categories_rows r))
                          - inject_Z 100)
                    <= inject_Z (Z.of_nat (length categories))
                       * ((1 # 200) + pow2 (-44)))%Q))
       ∧ (total ≤ 0 →
            Forall (λ e, (percentage_share e == 0)%Q) (categories_rows r)).
Proof.
  intros total.
  exists {| categories_rows := map (entry_for total) categories;
            total_categories := length categories;
            summary_total_stock := total |}.
  split.
  { unfold category_distribution_report. fold total.
    by rewrite category_entries. }
  split; [done|]. split; [done|]. cbn [categories_rows]. split.
  - intros Hpos.
    assert (Hsum : (py_sumQ (map (exact_share total) categories) == inject_Z 100)%Q).
    { rewrite exact_shares_sum by done.
      rewrite <- total_stock_split. fold total. field.
      unfold Qeq. cbn. lia. }
    split; [exact Hsum|]. intros Hall.
    assert (Hrows : Forall (λ c, (Qabs (percentage_share (entry_for total c)
                                        - exact_share total c)
                                  <= (1 # 200) + pow2 (-44))%Q) categories).
    { apply Forall_forall. intros c Hc. apply shown_share_near; [done|]. split.
      - apply category_stock_nonneg. rewrite Forall_forall in Hall. by apply Hall.
      - by apply category_stock_le_total. }
    split; [exact Hrows|].
    rewrite <- Hsum.
    pose proof (py_sumQ_near ((1 # 200) + pow2 (-44))
                  (map percentage_share (map (entry_for total) categories))
                  (map (exact_share total) categories)) as Hnear.
    rewrite !length_map in Hnear. apply Hnear.
    rewrite map_map. apply Forall2_fmap, Forall_Forall2_diag.
    exact Hrows.
  - intros Hzero. apply Forall_forall. intros e He.
    apply list_elem_of_In, in_map_iff in He as (c & <- & _).
    cbn [percentage_share entry_for]. unfold share.
    destruct (Z.ltb_spec 0 total); [lia | apply round2_float_zero].
Qed.

End reports.

(** *** The scenarios of the specification, evaluated *)

Definition shelf (stock min_level : Z) (bs : list Ledger.StockBatch)
    : ReportGenerator.ProductRow :=
  {| ReportGenerator.product :=
       {| Ledger.prod_id := 1; Ledger.name := "Milk"; Ledger.category_id := 1;
          Ledger.price := (150 # 1)%Q; Ledger.min_stock_level := min_level;
          Ledger.stock_level := stock |};
     ReportGenerator.stock_batches := bs |}.

Definition batch (i q : Z) (exp : option Z) : Ledger.StockBatch :=
  {| Ledger.batch_id := i; Ledger.product_id := 1; Ledger.quantity := q;
     Ledger.expiration_date := exp; Ledger.created_at := 738869;
     Ledger.reason := "Restock" |}.

Example alerts_out_of_stock :
  map (λ a, (ReportGenerator.a_alert_status a, ReportGenerator.severity a))
      (ReportGenerator.alert_rows 738876 (shelf 0 10 []))
  = [("OUT_OF_STOCK", "CRITICAL")].
Proof. reflexivity. Qed.

Example alerts_low_stock :
  map (λ a, (ReportGenerator.a_alert_status a, ReportGenerator.severity a))
      (ReportGenerator.alert_rows 738876 (shelf 5 10 []))
  = [("LOW_STOCK", "WARNING")].
Proof. reflexivity. Qed.

Example alerts_at_minimum :
  ReportGenerator.alert_rows 738876 (shelf 10 10 []) = [].
Proof. reflexivity. Qed.

Example alerts_low_and_expiring :
  map (λ a, (ReportGenerator.a_alert_status a, ReportGenerator.severity a,
             ReportGenerator.a_expiration_date a))
      (ReportGenerator.alert_rows 738899
         (shelf 8 10 [batch 1 5 (Some 738886); batch 2 3 (Some 739038)]))
  = [("LOW_STOCK, EXPIRING_SOON", "WARNING", Some 738886)].
Proof. reflexivity. Qed.

Lemma alert_classification_witness :
  "OUT_OF_STOCK" ∈ ReportGenerator.alert_status 738876 (shelf 0 10 [])
  ∧ (∀ a, a ∈ ReportGenerator.alert_rows 738876 (shelf 0 10 []) →
          ReportGenerator.severity a = "CRITICAL")
  ∧ "LOW_STOCK" ∈ ReportGenerator.alert_status 738876 (shelf 5 10 []).
Proof.
  destruct (alert_classification 738876 (shelf 0 10 []))
    as (Hout & _ & _ & _ & _ & Hsev).
  destruct (alert_classification 738876 (shelf 5 10 []))
    as (_ & _ & Hlow & _).
  assert (Hin : "OUT_OF_STOCK" ∈ ReportGenerator.alert_status 738876 (shelf 0 10 [])).
  { apply Hout. cbn. lia. }
  split; [exact Hin|]. split.
  - intros a Ha. destruct (Hsev a Ha) as (_ & Hcritical & _). by apply Hcritical.
  - apply Hlow; cbn; lia.
Defined.

(** A product at stock 0 whose minimum is 0 is not tagged [OUT_OF_STOCK]
    and gets no row. *)
Lemma out_of_stock_needs_positive_minimum :
  ¬ (∀ cutoff_date p,
       "OUT_OF_STOCK" ∈ ReportGenerator.alert_status cutoff_date p
       ↔ Ledger.stock_level (ReportGenerator.product p) = 0).
Proof.
  intros H. destruct (H 738876 (shelf 0 0 [])) as [_ Htag].
  specialize (Htag eq_refl). cbn in Htag. by apply elem_of_nil in Htag.
Qed.

Example no_row_at_zero_minimum :
  ReportGenerator.alert_rows 738876 (shelf 0 0 []) = [].
Proof. reflexivity. Qed.

(** Two expiring batches listed latest first stay in that order. *)
Lemma expiring_batches_not_sorted :
  ¬ (∀ today horizon_days p,
       Sorted expires_no_later
         (ReportGenerator.expiring_batches (today + horizon_days) p)).
Proof.
  intros H.
  specialize (H 738869 30
                (shelf 8 10 [batch 2 3 (Some 738890); batch 1 5 (Some 738886)])).
  assert (Hfound :
    ReportGenerator.expiring_batches (738869 + 30)
      (shelf 8 10 [batch 2 3 (Some 738890); batch 1 5 (Some 738886)])
    = [batch 2 3 (Some 738890); batch 1 5 (Some 738886)]) by reflexivity.
  rewrite Hfound in H. inversion H as [|? ? _ Hhd]. subst.
  inversion Hhd as [|? ? Hle]. subst. cbn in Hle. lia.
Qed.

Lemma expiring_batches_filter_witness :
  ReportGenerator.expiring_batches (738869 + 30)
    (shelf 8 10 [batch 1 5 (Some 738886); batch 2 3 (Some 739038)])
  = [batch 1 5 (Some 738886)]
  ∧ ∃ a, ReportGenerator.alert_rows (738869 + 30)
           (shelf 8 10 [batch 1 5 (Some 738886); batch 2 3 (Some 739038)]) = [a]
         ∧ ReportGenerator.a_expiration_date a = Some 738886.
Proof.
  assert (Hfound :
    ReportGenerator.expiring_batches (738869 + 30)
      (shelf 8 10 [batch 1 5 (Some 738886); batch 2 3 (Some 739038)])
    = [batch 1 5 (Some 738886)]) by reflexivity.
  split; [exact Hfound|].
  destruct (expiring_batches_filter 738869 30
              (shelf 8 10 [batch 1 5 (Some 738886); batch 2 3 (Some 739038)]))
    as (_ & _ & _ & Hrow).
  destruct Hrow as (a & d & Hrows & Hdate & (b & Hb & Hd) & _).
  { rewrite Hfound. discriminate. }
  exists a. split; [exact Hrows|].
  rewrite Hfound in Hb. apply list_elem_of_singleton in Hb. subst b.
  rewrite Hdate. symmetry. exact Hd.
Defined.

Definition dairy : ReportGenerator.Category :=
  {| ReportGenerator.cat_id := 1; ReportGenerator.cat_name := "Dairy";
     ReportGenerator.cat_products := [shelf 1 10 [batch 1 1 None]] |}.

Definition bakery : ReportGenerator.Category :=
  {| ReportGenerator.cat_id := 2; ReportGenerator.cat_name := "Bakery";
     ReportGenerator.cat_products :=
       [shelf 2 10 [batch 2 2 None; batch 3 0 None]] |}.

(** Two further categories, holding 23 and 137 pieces: the first share,
    [23 / 160 * 100], is 14.375 as a fraction and 14.374999999999998 as
    a float, and is shown as 14.37. *)
Definition produce : ReportGenerator.Category :=
  {| ReportGenerator.cat_id := 3; ReportGenerator.cat_name := "Produce";
     ReportGenerator.cat_products := [shelf 23 10 [batch 4 23 None]] |}.

Definition frozen : ReportGenerator.Category :=
  {| ReportGenerator.cat_id := 4; ReportGenerator.cat_name := "Frozen";
     ReportGenerator.cat_products :=
       [shelf 137 10 [batch 5 100 None; batch 6 37 None]] |}.

Example category_shares_thirds :
  (λ r, map (λ e, Qred (ReportGenerator.percentage_share e))
          (ReportGenerator.categories_rows r))
    <$> ReportGenerator.category_distribution_report [dairy; bakery]
  = Some [Qred (binary64 (3333 # 100)); Qred (binary64 (6667 # 100))].
Proof. vm_compute. reflexivity. Qed.

Example category_shares_empty_stock :
  (λ r, map (λ e, Qred (ReportGenerator.percentage_share e))
          (ReportGenerator.categories_rows r))
    <$> ReportGenerator.category_distribution_report
          [{| ReportGenerator.cat_id := 3; ReportGenerator.cat_name := "Empty";
              ReportGenerator.cat_products := [] |}]
  = Some [0%Q].
Proof. vm_compute. reflexivity. Qed.

Example share_before_rounding :
  Qred (share 160 produce) = (8092405580431359 # 562949953421312)%Q.
Proof. vm_compute. reflexivity. Qed.

Lemma category_shares_witness :
  ∃ r, ReportGenerator.category_distribution_report [produce; frozen] = Some r
       ∧ map (λ e, Qred (ReportGenerator.percentage_share e))
             (ReportGenerator.categories_rows r)
         = [Qred (binary64 (1437 # 100)); Qred (binary64 (8562 # 100))]
       ∧ (Qabs (py_sumQ (map ReportGenerator.percentage_share
                           (ReportGenerator.categories_rows r))
                - inject_Z 100)
          <= inject_Z 2 * ((1 # 200) + pow2 (-44)))%Q.
Proof.
  destruct (category_shares [produce; frozen]) as (r & Hr & _ & Hrows & Hpos & _).
  destruct (Hpos ltac:(vm_compute; reflexivity)) as [_ Hnn].
  destruct Hnn as [_ Hsum].
  { repeat constructor; vm_compute; discriminate. }
  exists r. split; [exact Hr|]. split; [|exact Hsum].
  rewrite Hrows. vm_compute. reflexivity.
Defined.

(** Four sales of one retailer, seen on day 738869: sale 1 at 10:00 on
    day 738860 and sale 2 at 15:00 on day 738865 are in the last 30 days,
    sale 3 is older, and sale 4, made at 09:00 today, is later than
    today's midnight. *)
Definition ledger_book : ReportGenerator.session :=
  {| ReportGenerator.sales :=
       [ {| ReportGenerator.sale_id := 1;
            ReportGenerator.sale_created_at := midnight 738860 + 36000000000;
            ReportGenerator.retailer_id := 1001 |};
         {| ReportGenerator.sale_id := 2;
            ReportGenerator.sale_created_at := midnight 738865 + 54000000000;
            ReportGenerator.retailer_id := 1001 |};
         {| ReportGenerator.sale_id := 3;
            ReportGenerator.sale_created_at := midnight 738000;
            ReportGenerator.retailer_id := 1001 |};
         {| ReportGenerator.sale_id := 4;
            ReportGenerator.sale_created_at := midnight 738869 + 32400000000;
            ReportGenerator.retailer_id := 1001 |} ];
     ReportGenerator.sale_items :=
       [ {| ReportGenerator.item_sale_id := 1; ReportGenerator.item_product_id := 1;
            ReportGenerator.item_quantity := 2; ReportGenerator.line_total := (300 # 1)%Q |};
         {| ReportGenerator.item_sale_id := 1; ReportGenerator.item_product_id := 1;
            ReportGenerator.item_quantity := 1; ReportGenerator.line_total := (299 # 2)%Q |};
         {| ReportGenerator.item_sale_id := 2; ReportGenerator.item_product_id := 1;
            ReportGenerator.item_quantity := 4; ReportGenerator.line_total := (600 # 1)%Q |};
         {| ReportGenerator.item_sale_id := 3; ReportGenerator.item_product_id := 1;
            ReportGenerator.item_quantity := 9; ReportGenerator.line_total := (1350 # 1)%Q |};
         {| ReportGenerator.item_sale_id := 4; ReportGenerator.item_product_id := 1;
            ReportGenerator.item_quantity := 5; ReportGenerator.line_total := (750 # 1)%Q |} ];
     ReportGenerator.product_table := [milk];
     ReportGenerator.users :=
       [ {| ReportGenerator.uid := 1001; ReportGenerator.full_name := "Ana Cruz";
            ReportGenerator.role := "retailer" |} ] |}.

Example sales_summary_evaluated :
  ReportGenerator.summary
    (ReportGenerator.sales_performance_report 738869 ledger_book None None)
  = {| ReportGenerator.total_income := (104950 # 100)%Q;
       ReportGenerator.total_quantity_sold := 7;
       ReportGenerator.total_transactions := 2 |}.
Proof. vm_compute. reflexivity. Qed.

Example sales_of_today_left_out :
  map ReportGenerator.e_sale_id
    (ReportGenerator.sales_rows
       (ReportGenerator.sales_performance_report 738869 ledger_book None None))
  = [2; 1; 1].
Proof. vm_compute. reflexivity. Qed.

Lemma sales_summary_matches_rows_witness :
  (ReportGenerator.total_income
     (ReportGenerator.summary
        (ReportGenerator.sales_performance_report 738869 ledger_book None None))
   == 2099 # 2)%Q.
Proof.
  destruct (sales_summary_matches_rows 738869 ledger_book None None)
    as (_ & _ & Hexact & _).
  rewrite (Hexact 104950).
  - vm_compute. reflexivity.
  - vm_compute. reflexivity.
Defined.

(** * Further properties of the code *)

(** ** Report 3: retailer performance *)

Section retailer_report.
Import Ledger ReportGenerator Reports.

(** The progress figure before it is rounded for display. *)
Definition progress_of (m : RetailerMetrics) : Q :=
  if 0 <? daily_quota m
  then times_100 (binary64 (inject_Z (sales_today m) / inject_Z (daily_quota m)))
  else inject_Z 0.

Definition retailer_entry_for (a : Account) (m : RetailerMetrics) : retailer_entry :=
  {| retailer_name := full_name (user a); re_user_id := uid (user a);
     re_daily_quota := daily_quota m; current_sales := sales_today m;
     quota_progress := round2_float (progress_of m);
     streak_count := current_streak m; re_total_sales := total_sales m;
     re_has_profile_pic := bool_decide (user_image a ≠ None) |}.

Definition rows_for (table : list RetailerMetrics) (a : Account) : list retailer_entry :=
  match metrics_of table a with
  | Some m => [retailer_entry_for a m]
  | None => []
  end.

Lemma progress_defined (m : RetailerMetrics) : progress m = Some (progress_of m).
Proof.
  unfold progress, progress_of, truediv.
  destruct (Z.ltb_spec 0 (daily_quota m)) as [Hpos|_]; [|done].
  destruct (Z.eqb_spec (daily_quota m) 0); [lia | done].
Qed.

Lemma retailer_rows_defined (table : list RetailerMetrics) (a : Account) :
  retailer_rows table a = Some (rows_for table a).
Proof.
  unfold retailer_rows, rows_for.
  destruct (metrics_of table a) as [m|]; [|done].
  by rewrite progress_defined.
Qed.

Lemma retailer_rows_all (table : list RetailerMetrics) (l : list Account) :
  mapM (retailer_rows table) l = Some (map (rows_for table) l).
Proof.
  induction l as [|a l IH]; [done|].
  cbn [mapM map]. by rewrite IH, retailer_rows_defined.
Qed.

Lemma insert_desc_Permutation (x : retailer_entry) (l : list retailer_entry) :
  insert_desc x l ≡ₚ x :: l.
Proof.
  induction l as [|y l IH]; [done|]. cbn [insert_desc].
  destruct (key_lt (sort_key x) (sort_key y)); [|done].
  rewrite IH. apply perm_swap.
Qed.

Lemma sort_reverse_Permutation (l : list retailer_entry) : sort_reverse l ≡ₚ l.
Proof.
  induction l as [|x l IH]; [done|].
  cbn [sort_reverse foldr]. fold (sort_reverse l).
  by rewrite insert_desc_Permutation, IH.
Qed.

Lemma retailer_report_returns (accounts : list Account) (table : list RetailerMetrics) :
  retailer_performance_report accounts table
  = Some {| retailers :=
              sort_reverse (concat (map (rows_for table) (retailer_accounts accounts)));
            retailers_summary :=
              {| total_retailers := length (retailer_accounts accounts);
                 active_today :=
                   length (filter (λ r, 0 < current_sales r)
                     (sort_reverse
                        (concat (map (rows_for table) (retailer_accounts accounts))))) |} |}.
Proof.
  unfold retailer_performance_report. by rewrite retailer_rows_all.
Qed.

Lemma length_concat_rows (table : list RetailerMetrics) (l : list Account) :
  (length (concat (map (rows_for table) l)) ≤ length l)%nat.
Proof.
  induction l as [|a l IH]; [done|].
  cbn [map concat]. rewrite length_app. cbn [length].
  unfold rows_for at 1. destruct (metrics_of table a); cbn [length]; lia.
Qed.

(** X1. The retailer report always returns: the quota guard keeps the division
    away from a zero quota.  Its rows are the retailer/staff accounts that
    have a metrics record (the first one on file for the account), each
    with its name, id, quota, sales, streak and the progress
    [sales_today / daily_quota * 100] computed in floats and rounded to
    two decimals; so there are at most [total_retailers] rows, of which
    at most all are active today, and a row's progress is 0 when the
    quota is not positive. *)
Theorem retailer_report_rows (accounts : list Account) (table : list RetailerMetrics) :
  ∃ r, retailer_performance_report accounts table = Some r
       ∧ (∀ e, e ∈ retailers r ↔
               ∃ a m, a ∈ accounts ∧ role (user a) ∈ ["retailer"; "staff"]
                      ∧ metrics_of table a = Some m
                      ∧ e = retailer_entry_for a m)
       ∧ (active_today (retailers_summary r) ≤ length (retailers r)
          ≤ total_retailers (retailers_summary r))%nat
       ∧ (total_retailers (retailers_summary r) ≤ length accounts)%nat
       ∧ (∀ e, e ∈ retailers r → re_daily_quota e ≤ 0 → (quota_progress e == 0)%Q).
Proof.
  eexists. split; [apply retailer_report_returns|].
  cbn [retailers retailers_summary active_today total_retailers].
  assert (Hmem : ∀ e,
    e ∈ sort_reverse (concat (map (rows_for table) (retailer_accounts accounts))) ↔
    ∃ a m, a ∈ accounts ∧ role (user a) ∈ ["retailer"; "staff"]
           ∧ metrics_of table a = Some m ∧ e = retailer_entry_for a m).
  { intros e. rewrite sort_reverse_Permutation, list_elem_of_In, in_concat. split.
    - intros (rows & Hrows & He). apply in_map_iff in Hrows as (a & <- & Ha).
      apply list_elem_of_In, list_elem_of_filter in Ha as [Hrole Ha].
      unfold rows_for in He. destruct (metrics_of table a) as [m|] eqn:Hm; [|done].
      destruct He as [<-|[]]. by exists a, m.
    - intros (a & m & Ha & Hrole & Hm & ->). exists (rows_for table a). split.
      + apply in_map, list_elem_of_In, list_elem_of_filter. done.
      + unfold rows_for. rewrite Hm. by left. }
  split; [exact Hmem|]. split; [|split].
  - split; [apply length_filter|].
    rewrite sort_reverse_Permutation. apply length_concat_rows.
  - apply length_filter.
  - intros e He Hq. apply Hmem in He as (a & m & _ & _ & _ & ->).
    cbn [re_daily_quota quota_progress retailer_entry_for] in Hq |- *.
    unfold progress_of.
    destruct (Z.ltb_spec 0 (daily_quota m)); [lia | apply round2_float_zero].
Qed.

Example progress_rounded :
  Qred (quota_progress
          (retailer_entry_for
             {| user := {| uid := 1001; full_name := "Ana Cruz"; role := "retailer" |};
                username := "ana"; user_image := None |}
             {| metrics_retailer_id := 1001; daily_quota := 160; sales_today := 23;
                current_streak := 2; total_sales := 640 |}))
  = Qred (binary64 (1437 # 100)).
Proof. vm_compute. reflexivity. Qed.

(** Descending by streak, ties by total sales. *)
Definition ranks_before (a b : retailer_entry) : Prop :=
  streak_count b < streak_count a
  ∨ (streak_count a = streak_count b ∧ re_total_sales b ≤ re_total_sales a).

Lemma key_lt_false (a b : retailer_entry) :
  key_lt (sort_key a) (sort_key b) = false ↔ ranks_before a b.
Proof.
  unfold key_lt, sort_key, ranks_before. cbn [fst snd].
  destruct (Z.ltb_spec (streak_count a) (streak_count b)),
           (Z.eqb_spec (streak_count a) (streak_count b)),
           (Z.ltb_spec (re_total_sales a) (re_total_sales b));
    cbn; split; intros; (done || lia).
Qed.

Lemma key_lt_true (a b : retailer_entry) :
  key_lt (sort_key a) (sort_key b) = true →
  ranks_before b a ∧ sort_key a ≠ sort_key b.
Proof.
  unfold key_lt, sort_key, ranks_before. cbn [fst snd].
  destruct (Z.ltb_spec (streak_count a) (streak_count b)),
           (Z.eqb_spec (streak_count a) (streak_count b)),
           (Z.ltb_spec (re_total_sales a) (re_total_sales b));
    cbn; intros; (done || (split; [lia | intros [=]; lia])).
Qed.

Global Instance ranks_before_trans : Transitive ranks_before.
Proof. intros a b c. unfold ranks_before. lia. Qed.

Lemma insert_desc_Sorted (x : retailer_entry) (l : list retailer_entry) :
  Sorted ranks_before l → Sorted ranks_before (insert_desc x l).
Proof.
  induction 1 as [|y l Hl IH Hhd]; cbn [insert_desc].
  - repeat constructor.
  - destruct (key_lt (sort_key x) (sort_key y)) eqn:Hk.
    + apply key_lt_true in Hk as [Hyx _].
      constructor; [exact IH|].
      destruct l as [|z l]; cbn [insert_desc].
      * by constructor.
      * destruct (key_lt (sort_key x) (sort_key z)); constructor; [|done].
        by inversion Hhd.
    + apply key_lt_false in Hk.
      constructor; [by constructor | by constructor].
Qed.

Lemma sort_reverse_Sorted (l : list retailer_entry) :
  Sorted ranks_before (sort_reverse l).
Proof.
  induction l as [|x l IH]; [constructor|].
  cbn [sort_reverse foldr]. by apply insert_desc_Sorted.
Qed.

Lemma insert_desc_same_key (k : Z * Z) (x : retailer_entry) (l : list retailer_entry) :
  filter (λ e, sort_key e = k) (insert_desc x l)
  = filter (λ e, sort_key e = k) (x :: l).
Proof.
  induction l as [|y l IH]; [done|]. cbn [insert_desc].
  destruct (key_lt (sort_key x) (sort_key y)) eqn:Hk; [|done].
  apply key_lt_true in Hk as [_ Hne].
  rewrite (filter_cons _ y), IH, !(filter_cons _ x), (filter_cons _ y).
  destruct (decide (sort_key y = k)) as [Hy|Hy]; [|done].
  destruct (decide (sort_key x = k)) as [Hx|Hx]; [congruence | done].
Qed.

(** X2. The rows of the retailer report are ranked by streak, then by total
    sales, both descending; the sort keeps every row once, and rows with
    the same streak and sales stay in the order in which the accounts were
    read. *)
Theorem retailer_report_ranked (accounts : list Account) (table : list RetailerMetrics) :
  ∃ r, retailer_performance_report accounts table = Some r
       ∧ StronglySorted ranks_before (retailers r)
       ∧ retailers r ≡ₚ concat (map (rows_for table) (retailer_accounts accounts))
       ∧ ∀ k, filter (λ e, sort_key e = k) (retailers r)
              = filter (λ e, sort_key e = k)
                  (concat (map (rows_for table) (retailer_accounts accounts))).
Proof.
  eexists. split; [apply retailer_report_returns|]. cbn [retailers].
  split; [apply Sorted_StronglySorted; [apply _ | apply sort_reverse_Sorted]|].
  split; [apply sort_reverse_Permutation|].
  intros k. induction (concat _) as [|x l IH]; [done|].
  cbn [sort_reverse foldr]. fold (sort_reverse l).
  rewrite insert_desc_same_key, !(filter_cons _ x), IH. done.
Qed.

End retailer_report.

(** ** Reports 5 and 7, and the summaries of reports 1, 2 and 4 *)

Section more_reports.
Import Ledger ReportGenerator Reports.

Lemma distinct_count_le (xs : list Z) : (distinct_count xs ≤ length xs)%nat.
Proof.
  unfold distinct_count. induction xs as [|x xs IH].
  - cbn. by rewrite size_empty.
  - cbn [list_to_set length].
    pose proof (size_union_alt (C := gset Z) {[x]} (list_to_set xs)) as Hu.
    assert (Hsub : list_to_set xs ∖ {[x]} ⊆ (list_to_set xs : gset Z)).
    { intros y Hy. by apply elem_of_difference in Hy as [Hy _]. }
    pose proof (subseteq_size _ _ Hsub) as Hd.
    rewrite size_singleton in Hu. lia.
Qed.

Lemma distinct_count_pos (xs : list Z) : xs ≠ [] → (0 < distinct_count xs)%nat.
Proof.
  destruct xs as [|x xs]; [done|]. intros _. unfold distinct_count.
  cbn [list_to_set].
  assert (Hsub : ({[x]} : gset Z) ⊆ {[x]} ∪ list_to_set xs).
  { intros y Hy. apply elem_of_union. by left. }
  pose proof (subseteq_size _ _ Hsub) as H.
  rewrite size_singleton in H. lia.
Qed.

(** *** Managerial activity *)

Lemma logs_query_rows (logs : list ProductLog) (db : session)
    (start_date end_date : Z) (r : log_row) :
  r ∈ logs_query logs db start_date end_date ↔
  ∃ l p u,
    l ∈ logs ∧ p ∈ product_table db ∧ u ∈ users db
    ∧ log_product_id l = prod_id p ∧ user_id l = uid u
    ∧ role u ∈ ["admin"; "manager"]
    ∧ midnight start_date ≤ log_time l ≤ midnight end_date
    ∧ r = {| lr_log_id := log_id l; lr_product_name := name p;
             lr_action_type := action_type l; lr_manager_id := uid u;
             lr_manager_name := full_name u; lr_log_time := log_time l;
             lr_notes := notes l |}.
Proof.
  unfold logs_query. rewrite merge_sort_Permutation, list_elem_of_filter.
  setoid_rewrite list_elem_of_bind. split.
  - intros [Hrange (l & Hr & Hl)].
    apply list_elem_of_bind in Hr as (p & Hr & Hp).
    apply list_elem_of_filter in Hp as [Hlp Hp].
    apply list_elem_of_bind in Hr as (u & Hr & Hu).
    apply list_elem_of_filter in Hu as [Hlu Hu].
    destruct (decide (role u ∈ ["admin"; "manager"])) as [Hrole|_];
      [|by apply elem_of_nil in Hr].
    apply list_elem_of_singleton in Hr. subst r. cbn [lr_log_time] in Hrange.
    exists l, p, u. repeat split; (done || lia).
  - intros (l & p & u & Hl & Hp & Hu & Hlp & Hlu & Hrole & Hrange & ->).
    split; [cbn [lr_log_time]; lia|].
    exists l. split; [|done].
    apply list_elem_of_bind. exists p. split; [|by apply list_elem_of_filter].
    apply list_elem_of_bind. exists u. split; [|by apply list_elem_of_filter].
    rewrite decide_True by done. by apply list_elem_of_singleton.
Qed.

Lemma log_entries_sorted (l : list log_row) :
  Sorted latest_first l →
  Sorted (λ a b, date_time b ≤ date_time a) (map log_entry_of l).
Proof.
  induction 1 as [|x l _ IH Hhd]; [constructor|].
  cbn [map]. constructor; [exact IH|].
  destruct Hhd; constructor. done.
Qed.

(** X3. Every entry of the managerial activity log is a log record whose
    [log_time] lies between the midnight that begins the start date and
    the midnight that begins the end date (today, and 30 days before it,
    when the dates are omitted), whose actor is a user on file with role
    [admin] or [manager] and whose product is on file.  Records of other
    actors, without a matching product or user, or written later on the
    end date than its first instant, are left out. *)
Theorem managerial_log_entries (today : Z) (logs : list ProductLog)
    (db : session) (start_date end_date : option Z) (e : log_entry) :
  let r := managerial_activity_log_report today logs db start_date end_date in
  log_date_range r = (default (today - 30) start_date, default today end_date)
  ∧ (e ∈ logs_rows r ↔
     ∃ l p u,
       l ∈ logs ∧ p ∈ product_table db ∧ u ∈ users db
       ∧ log_product_id l = prod_id p ∧ user_id l = uid u
       ∧ role u ∈ ["admin"; "manager"]
       ∧ midnight (log_date_range r).1 ≤ log_time l
         ≤ midnight (log_date_range r).2
       ∧ e = {| le_log_id := log_id l; le_product_name := name p;
                action_performed := action_type l; manager_id := uid u;
                manager_name := full_name u; date_time := log_time l;
                le_notes := notes l |}).
Proof.
  intros r.
  assert (Hrange : log_date_range r
                   = (default (today - 30) start_date, default today end_date))
    by (by destruct start_date, end_date).
  split; [exact Hrange|]. rewrite Hrange. cbn [fst snd].
  assert (Hrows : logs_rows r
                  = map log_entry_of
                      (logs_query logs db (default (today - 30) start_date)
                                          (default today end_date)))
    by (by destruct start_date, end_date).
  rewrite Hrows, list_elem_of_In, in_map_iff. split.
  - intros (row & <- & Hrow).
    apply list_elem_of_In, logs_query_rows in Hrow
      as (l & p & u & Hl & Hp & Hu & Hlp & Hlu & Hrole & Hin & ->).
    by exists l, p, u.
  - intros (l & p & u & Hl & Hp & Hu & Hlp & Hlu & Hrole & Hin & ->).
    eexists. split; [|apply list_elem_of_In, logs_query_rows; by exists l, p, u].
    reflexivity.
Qed.

(** X4. The managerial activity log lists its entries newest first; the
    summary counts exactly the listed entries, and the number of distinct
    managers is at most that count and at least 1 when any entry is
    listed. *)
Theorem managerial_log_summary (today : Z) (logs : list ProductLog)
    (db : session) (start_date end_date : option Z) :
  let r := managerial_activity_log_report today logs db start_date end_date in
  Sorted (λ a b, date_time b ≤ date_time a) (logs_rows r)
  ∧ total_actions (logs_summary r) = length (logs_rows r)
  ∧ unique_managers (logs_summary r) = distinct_count (map manager_id (logs_rows r))
  ∧ (unique_managers (logs_summary r) ≤ total_actions (logs_summary r))%nat
  ∧ (logs_rows r ≠ [] → (0 < unique_managers (logs_summary r))%nat).
Proof.
  intros r.
  set (results := logs_query logs db (default (today - 30) start_date)
                                     (default today end_date)).
  assert (Hrows : logs_rows r = map log_entry_of results)
    by (by destruct start_date, end_date).
  assert (Htotal : total_actions (logs_summary r) = length results)
    by (by destruct start_date, end_date).
  assert (Huniq : unique_managers (logs_summary r)
                  = distinct_count (map lr_manager_id results))
    by (by destruct start_date, end_date).
  rewrite Hrows, Htotal, Huniq, map_map, length_map.
  split.
  { assert (Total latest_first) by (intros a b; unfold latest_first; lia).
    pose proof (Sorted_merge_sort latest_first
      (filter (λ r, midnight (default (today - 30) start_date) ≤ lr_log_time r
                    ∧ lr_log_time r ≤ midnight (default today end_date))
         (l ← logs;
          p ← filter (λ p, log_product_id l = prod_id p) (product_table db);
          u ← filter (λ u, user_id l = uid u) (users db);
          if decide (role u ∈ ["admin"; "manager"]) then
            [ {| lr_log_id := log_id l; lr_product_name := name p;
                 lr_action_type := action_type l; lr_manager_id := uid u;
                 lr_manager_name := full_name u; lr_log_time := log_time l;
                 lr_notes := notes l |} ]
          else []))) as Hsorted.
    by apply log_entries_sorted. }
  split; [done|]. split; [done|].
  split.
  { pose proof (distinct_count_le (map lr_manager_id results)) as Hle.
    by rewrite length_map in Hle. }
  intros Hne. apply distinct_count_pos. by destruct results.
Qed.

(** *** User accounts *)

(** X5. The user accounts report lists every user once, each as [Active]; the
    three role counts never exceed the number of users, and they add up to
    it exactly when every role is one of admin, manager, retailer, staff. *)
Theorem user_accounts_counts (users : list Account) :
  let r := user_accounts_report users in
  let s := users_summary r in
  length (users_rows r) = length users
  ∧ total_users s = length users
  ∧ Forall (λ e, account_status e = "Active") (users_rows r)
  ∧ (admins s + managers s + retailers_count s ≤ total_users s)%nat
  ∧ ((admins s + managers s + retailers_count s)%nat = total_users s
     ↔ Forall (λ u, role (user u) ∈ ["admin"; "manager"; "retailer"; "staff"]) users).
Proof.
  intros r s. unfold s, r, user_accounts_report.
  cbn [users_rows users_summary total_users admins managers retailers_count].
  split; [apply length_map|]. split; [done|].
  split; [apply Forall_forall; intros e He;
          apply list_elem_of_In, in_map_iff in He as (u & <- & _); done|].
  induction users as [|u l [IHle IHeq]].
  { split; [done|]. split; [constructor | done]. }
  rewrite !filter_cons. rewrite Forall_cons. cbn [length].
  destruct (decide (role (user u) = "admin")) as [Ha|Ha];
    destruct (decide (role (user u) = "manager")) as [Hm|Hm];
    destruct (decide (role (user u) ∈ ["retailer"; "staff"])) as [Hr|Hr];
    try (rewrite Ha in Hm; discriminate Hm);
    try (rewrite Ha in Hr; exfalso;
         rewrite !elem_of_cons, elem_of_nil in Hr; intuition discriminate);
    try (rewrite Hm in Hr; exfalso;
         rewrite !elem_of_cons, elem_of_nil in Hr; intuition discriminate);
    cbn [length].
  - split; [lia|]. rewrite <- IHeq. rewrite Ha.
    split; [intros; split; [by left | lia] | intros [_ ?]; lia].
  - split; [lia|]. rewrite <- IHeq. rewrite Hm.
    split; [intros; split; [right; by left | lia] | intros [_ ?]; lia].
  - split; [lia|]. rewrite <- IHeq.
    split; [intros; split; [by do 2 right | lia] | intros [_ ?]; lia].
  - split; [lia|]. split; [lia|]. intros [Hin _].
    apply elem_of_cons in Hin as [?|Hin]; [done|].
    apply elem_of_cons in Hin as [?|Hin]; done.
Qed.

End more_reports.

Section report_summaries.
Import Ledger ReportGenerator.

(** *** Alerts *)

Lemma alert_status_nonempty (cutoff_date : Z) (p : ProductRow) :
  alert_status cutoff_date p ≠ [] ↔
  stock_level (product p) < min_stock_level (product p)
  ∨ expiring_batches cutoff_date p ≠ [].
Proof.
  unfold alert_status, low_stock_status.
  destruct (Z.ltb_spec (stock_level (product p)) (min_stock_level (product p))),
           (stock_level (product p) =? 0),
           (expiring_batches cutoff_date p);
    cbn; split; intros; try done; try (by left); try (by right);
    intuition (done || lia).
Qed.

Lemma alert_status_critical (cutoff_date : Z) (p : ProductRow) :
  severity_of (alert_status cutoff_date p) = "CRITICAL" ↔
  stock_level (product p) = 0 ∧ 0 < min_stock_level (product p).
Proof.
  unfold severity_of.
  assert (Hout : "OUT_OF_STOCK" ∈ alert_status cutoff_date p ↔
                 stock_level (product p) = 0 ∧ 0 < min_stock_level (product p)).
  { unfold alert_status. rewrite elem_of_app, low_stock_status_out.
    destruct (expiring_batches cutoff_date p);
      rewrite ?elem_of_cons, ?elem_of_nil; intuition done. }
  destruct (decide ("OUT_OF_STOCK" ∈ alert_status cutoff_date p)) as [Hin|Hin].
  - split; [intros _; by apply Hout | done].
  - split; [done | intros H; by apply Hout in H].
Qed.

Definition needs_attention (cutoff_date : Z) (p : ProductRow) : Prop :=
  stock_level (product p) < min_stock_level (product p)
  ∨ expiring_batches cutoff_date p ≠ [].

Global Instance needs_attention_dec cutoff_date p :
  Decision (needs_attention cutoff_date p).
Proof. unfold needs_attention. apply _. Defined.

(** X6. The alert report lists exactly the products whose stock is below their
    minimum or that have a batch expiring within the horizon, once each
    and in the order of the product list, each with its current stock. *)
Theorem alerts_list_products_needing_attention
    (today : Z) (products : list ProductRow) (days_ahead : Z) :
  map (λ a, (a_product_id a, current_stock a))
      (alerts (low_stock_and_expiration_alert_report today products days_ahead))
  = map (λ p, (prod_id (product p), stock_level (product p)))
        (filter (needs_attention (today + days_ahead)) products).
Proof.
  rewrite alert_report_rows.
  induction products as [|p l IH]; [done|].
  rewrite bind_cons, map_app, IH, filter_cons.
  destruct (alert_rows_cases (today + days_ahead) p)
    as [[Htags ->]|[Htags (a & -> & Hid & Hstock & _)]].
  - rewrite decide_False; [done|].
    intros Hneed. by apply alert_status_nonempty in Hneed.
  - rewrite decide_True by (by apply alert_status_nonempty).
    cbn [map app]. by rewrite Hid, Hstock.
Qed.

Lemma length_filter_split {A} (P Q : A → Prop)
    `{∀ x, Decision (P x)} `{∀ x, Decision (Q x)} (l : list A) :
  Forall (λ x, (P x ∧ ¬ Q x) ∨ (Q x ∧ ¬ P x)) l →
  (length (filter P l) + length (filter Q l))%nat = length l.
Proof.
  induction 1 as [|x l Hx _ IH]; [done|].
  rewrite !filter_cons.
  destruct (decide (P x)), (decide (Q x)); cbn [length]; try lia; tauto.
Qed.

(** X7. In the alert report every row is either [CRITICAL] or [WARNING], so
    the two severity counts of the summary add up to [total_alerts]; the
    critical ones are exactly the products at stock 0 with a positive
    minimum. *)
Theorem alert_summary_adds_up
    (today : Z) (products : list ProductRow) (days_ahead : Z) :
  let r := low_stock_and_expiration_alert_report today products days_ahead in
  let s := alerts_summary r in
  total_alerts s = length (alerts r)
  ∧ (critical_alerts s + warning_alerts s)%nat = total_alerts s
  ∧ critical_alerts s
    = length (filter (λ p, stock_level (product p) = 0
                           ∧ 0 < min_stock_level (product p)) products).
Proof.
  intros r s. split; [done|]. split.
  - unfold s, r, low_stock_and_expiration_alert_report.
    cbn [alerts_summary critical_alerts warning_alerts total_alerts].
    apply length_filter_split. apply Forall_forall. intros a Ha.
    apply list_elem_of_bind in Ha as (p & Ha & _).
    destruct (alert_rows_cases (today + days_ahead) p)
      as [[_ Hrows]|[_ (a' & Hrows & _ & _ & _ & Hsev & _)]];
      rewrite Hrows in Ha; [by apply elem_of_nil in Ha|].
    apply list_elem_of_singleton in Ha as ->. rewrite Hsev. unfold severity_of.
    destruct (decide _); [left | right]; done.
  - unfold s, r, low_stock_and_expiration_alert_report.
    cbn [alerts_summary critical_alerts].
    induction products as [|p l IH]; [done|].
    rewrite bind_cons, filter_app, length_app, IH, (filter_cons _ p).
    destruct (alert_rows_cases (today + days_ahead) p)
      as [[Htags Hrows]|[_ (a & Hrows & _ & _ & _ & Hsev & _)]]; rewrite Hrows.
    + rewrite decide_False; [done|].
      intros Hcrit. apply (alert_status_critical (today + days_ahead)) in Hcrit.
      rewrite Htags in Hcrit. discriminate Hcrit.
    + rewrite filter_cons, filter_nil.
      destruct (decide (severity a = "CRITICAL")) as [Hc|Hc].
      * rewrite decide_True; [done|].
        apply (alert_status_critical (today + days_ahead)). by rewrite <- Hsev.
      * rewrite decide_False; [done|].
        intros Hcrit. apply (alert_status_critical (today + days_ahead)) in Hcrit.
        by rewrite <- Hsev in Hcrit.
Qed.

(** *** Sales *)

Lemma sale_entries_sorted (l : list result_row) :
  Sorted newest_first l →
  Sorted (λ a b, e_date b ≤ e_date a) (map entry_of l).
Proof.
  induction 1 as [|x l _ IH Hhd]; [constructor|].
  cbn [map]. constructor; [exact IH|].
  destruct Hhd; constructor. done.
Qed.

(** X8. Every row of the sales report is a line of a sale made between
    the midnight that begins the start date and the midnight that begins
    the end date (today, and 30 days before it, when the dates are
    omitted), whose product and retailer are on file.  Lines without a
    matching product or retailer, and sales made later on the end date
    than its first instant, are left out. *)
Theorem sales_report_entries (today : Z) (db : session)
    (start_date end_date : option Z) (e : sale_entry) :
  let r := sales_performance_report today db start_date end_date in
  date_range r = (default (today - 30) start_date, default today end_date)
  ∧ (e ∈ sales_rows r ↔
     ∃ s i p u,
       s ∈ sales db ∧ i ∈ sale_items db ∧ p ∈ product_table db ∧ u ∈ users db
       ∧ sale_id s = item_sale_id i ∧ item_product_id i = prod_id p
       ∧ retailer_id s = uid u
       ∧ midnight (date_range r).1 ≤ sale_created_at s
         ≤ midnight (date_range r).2
       ∧ e = {| e_sale_id := sale_id s; e_date := sale_created_at s;
                e_product_name := name p; quantity_sold := item_quantity i;
                total_price := line_total i; e_retailer_name := full_name u |}).
Proof.
  intros r.
  assert (Hrange : date_range r
                   = (default (today - 30) start_date, default today end_date))
    by (by destruct start_date, end_date).
  split; [exact Hrange|]. rewrite Hrange. cbn [fst snd].
  assert (Hrows : sales_rows r
                  = map entry_of
                      (sales_query db (default (today - 30) start_date)
                                      (default today end_date)))
    by (by destruct start_date, end_date).
  rewrite Hrows, list_elem_of_In, in_map_iff. split.
  - intros (row & <- & Hrow).
    apply list_elem_of_In, sales_query_rows in Hrow
      as (s & i & p & u & Hs & Hi & Hp & Hu & Hsi & Hip & Hsu & Hin & ->).
    by exists s, i, p, u.
  - intros (s & i & p & u & Hs & Hi & Hp & Hu & Hsi & Hip & Hsu & Hin & ->).
    eexists. split; [|apply list_elem_of_In, sales_query_rows; by exists s, i, p, u].
    reflexivity.
Qed.

(** X9. The sales report lists its rows newest first, counts at most one
    transaction per row and at least one when there is a row; with no row
    in the range all three totals are zero. *)
Theorem sales_report_order_and_counts (today : Z) (db : session)
    (start_date end_date : option Z) :
  let r := sales_performance_report today db start_date end_date in
  Sorted (λ a b, e_date b ≤ e_date a) (sales_rows r)
  ∧ (total_transactions (summary r) ≤ length (sales_rows r))%nat
  ∧ (sales_rows r ≠ [] → (0 < total_transactions (summary r))%nat)
  ∧ (sales_rows r = [] →
     (total_income (summary r) == 0)%Q
     ∧ total_quantity_sold (summary r) = 0
     ∧ total_transactions (summary r) = 0%nat).
Proof.
  intros r.
  set (results := sales_query db (default (today - 30) start_date)
                                 (default today end_date)).
  assert (Hrows : sales_rows r = map entry_of results)
    by (by destruct start_date, end_date).
  assert (Hsum : summary r
                 = {| total_income := round2 (py_sumQ (map r_line_total results));
                      total_quantity_sold := py_sum (map r_quantity results);
                      total_transactions := distinct_count (map r_sale_id results) |})
    by (by destruct start_date, end_date).
  rewrite Hrows, Hsum, length_map.
  cbn [total_income total_quantity_sold total_transactions].
  split; [apply sale_entries_sorted, sales_query_newest_first|].
  split.
  { pose proof (distinct_count_le (map r_sale_id results)) as Hle.
    by rewrite length_map in Hle. }
  split.
  { intros Hne. apply distinct_count_pos. by destruct results. }
  intros Hnil. destruct results; [|done]. cbn. repeat split.
Qed.

End report_summaries.

Section category_totals.
Import Ledger ReportGenerator.
Local Open Scope Q_scope.

(** X10. The category report has one row per category, in order, carrying the
    category's id, product count and stock; the summary's [total_stock] is
    the sum of the rows' [total_stock_quantity], and with no negative batch
    quantity every [percentage_share] lies between 0 and 100. *)
Theorem category_report_totals (categories : list Category) :
  ∃ r, category_distribution_report categories = Some r
       ∧ total_categories r = length (categories_rows r)
       ∧ map (λ e, (c_category_id e, number_of_products e, total_stock_quantity e))
             (categories_rows r)
         = map (λ c, (cat_id c, length (cat_products c), category_stock c)) categories
       ∧ summary_total_stock r = py_sum (map total_stock_quantity (categories_rows r))
       ∧ (Forall stocked_nonneg categories →
          Forall (λ e, 0 <= percentage_share e <= inject_Z 100) (categories_rows r)).
Proof.
  exists {| categories_rows := map (entry_for (total_stock categories)) categories;
            total_categories := length categories;
            summary_total_stock := total_stock categories |}.
  split.
  { unfold category_distribution_report. by rewrite category_entries. }
  cbn [categories_rows total_categories summary_total_stock].
  split; [by rewrite length_map|]. split; [by rewrite map_map|].
  split; [by rewrite map_map, total_stock_split|].
  intros Hall. apply Forall_forall. intros e He.
  apply list_elem_of_In, in_map_iff in He as (c & <- & Hc).
  apply list_elem_of_In in Hc. cbn [percentage_share entry_for].
  apply round2_float_between, share_between. split.
  - apply category_stock_nonneg. rewrite Forall_forall in Hall. by apply Hall.
  - by apply category_stock_le_total.
Qed.

End category_totals.

(** ** The dialogs *)

Section dialogs.
Import Ledger Text Dialogs.

(** Only whitespace. *)
Fixpoint all_space (s : string) : bool :=
  match s with
  | EmptyString => true
  | String c rest => isspace c && all_space rest
  end.

(** No whitespace at all. *)
Fixpoint no_space (s : string) : bool :=
  match s with
  | EmptyString => true
  | String c rest => negb (isspace c) && no_space rest
  end.

Lemma lstrip_empty_iff (s : string) : lstrip s = "" ↔ all_space s = true.
Proof.
  induction s as [|c s IH]; cbn; [done|].
  destruct (isspace c); cbn; [exact IH | done].
Qed.

Lemma rstrip_empty_iff (s : string) : rstrip s = "" ↔ all_space s = true.
Proof.
  induction s as [|c s IH]; cbn; [done|].
  destruct (rstrip s) as [|c' kept].
  - destruct (isspace c); cbn; [|done].
    split; intros; [by apply IH | done].
  - split; [done|]. intros H. apply andb_true_iff in H as [_ H].
    by apply IH in H.
Qed.

Lemma all_space_lstrip (s : string) : all_space (lstrip s) = all_space s.
Proof.
  induction s as [|c s IH]; cbn; [done|].
  destruct (isspace c) eqn:Hc; cbn; [exact IH | by rewrite Hc].
Qed.

Lemma strip_empty_iff (s : string) : strip s = "" ↔ all_space s = true.
Proof. unfold strip. by rewrite rstrip_empty_iff, all_space_lstrip. Qed.

Lemma rstrip_idemp (s : string) : rstrip (rstrip s) = rstrip s.
Proof.
  induction s as [|c s IH]; cbn; [done|].
  destruct (rstrip s) as [|c' kept] eqn:Hs.
  - destruct (isspace c) eqn:Hc; cbn; [done | by rewrite Hc].
  - change (rstrip (String c (String c' kept)))
      with (match rstrip (String c' kept) with
            | EmptyString => if isspace c then EmptyString else String c EmptyString
            | String a k => String c (String a k)
            end).
    by rewrite IH.
Qed.

Lemma lstrip_rstrip (s : string) :
  lstrip s = s → lstrip (rstrip s) = rstrip s.
Proof.
  destruct s as [|c s]; cbn; [done|].
  destruct (isspace c) eqn:Hc.
  - intros Hl. exfalso.
    assert (Hlen : (String.length (lstrip s) ≤ String.length s)%nat).
    { clear. induction s as [|c s IH]; cbn; [done|].
      destruct (isspace c); cbn; lia. }
    rewrite Hl in Hlen. cbn in Hlen. lia.
  - intros _. destruct (rstrip s); cbn; by rewrite Hc.
Qed.

Lemma lstrip_idemp (s : string) : lstrip (lstrip s) = lstrip s.
Proof.
  induction s as [|c s IH]; cbn; [done|].
  destruct (isspace c) eqn:Hc; [exact IH | cbn; by rewrite Hc].
Qed.

Lemma strip_idemp (s : string) : strip (strip s) = strip s.
Proof.
  unfold strip. rewrite lstrip_rstrip by apply lstrip_idemp. apply rstrip_idemp.
Qed.

Lemma lstrip_pad (p t : string) : all_space p = true → lstrip (p ++ t) = lstrip t.
Proof.
  induction p as [|c p IH]; [done|].
  change (String c p ++ t)%string with (String c (p ++ t)). simpl.
  intros H. apply andb_true_iff in H as [Hc H]. rewrite Hc. by apply IH.
Qed.

Lemma rstrip_pad (t p : string) : all_space p = true → rstrip (t ++ p) = rstrip t.
Proof.
  intros Hp. induction t as [|c t IH].
  - change (EmptyString ++ p)%string with p. by apply rstrip_empty_iff.
  - change (String c t ++ p)%string with (String c (t ++ p)). simpl.
    by rewrite IH.
Qed.

Lemma rstrip_no_space (s : string) : no_space s = true → rstrip s = s.
Proof.
  induction s as [|c s IH]; cbn; [done|].
  intros H. apply andb_true_iff in H as [Hc Hs]. rewrite (IH Hs).
  destruct s; [|done]. apply negb_true_iff in Hc. by rewrite Hc.
Qed.

Lemma lstrip_no_space (s : string) : no_space s = true → lstrip s = s.
Proof.
  destruct s as [|c s]; cbn; [done|].
  intros H. apply andb_true_iff in H as [Hc _].
  apply negb_true_iff in Hc. by rewrite Hc.
Qed.

(** Blanks around a text without whitespace are stripped, nothing else. *)
Lemma strip_padded (p t q : string) :
  all_space p = true → all_space q = true → no_space t = true →
  strip (p ++ t ++ q) = t.
Proof.
  intros Hp Hq Ht. unfold strip. rewrite lstrip_pad by done.
  destruct t as [|c t].
  - change (EmptyString ++ q)%string with q.
    rewrite (proj2 (lstrip_empty_iff q) Hq). done.
  - assert (Hl : lstrip (String c t ++ q) = (String c t ++ q)%string).
    { change (String c t ++ q)%string with (String c (t ++ q)).
      simpl in Ht |- *. apply andb_true_iff in Ht as [Hc _].
      apply negb_true_iff in Hc. by rewrite Hc. }
    rewrite Hl, rstrip_pad by done. by apply rstrip_no_space.
Qed.

Lemma or_default_nonempty (text d : string) : d ≠ "" → or_default text d ≠ "".
Proof. by destruct text. Qed.

(** X11. For an entered text of ASCII characters, the reason sent with a
    disposal, a new batch or a batch edit is never empty and never starts
    or ends with whitespace: it is the entered text stripped, or the
    dialog's default ("Disposed", "Stock added", "Updated") when the text
    is blank. *)
Theorem dialog_reason_defaults (available_quantity typed picked_date : Z)
    (reason_text : string) :
  isascii reason_text = true →
  let given := [ (dd_reason (DisposeBatchDialog_get_data available_quantity typed reason_text),
                  "Disposed");
                 (bd_reason (AddBatchDialog_get_data typed picked_date reason_text),
                  "Stock added");
                 ((EditBatchDialog_get_data picked_date reason_text).2, "Updated") ] in
  Forall (λ '(reason, fallback),
            reason ≠ ""
            ∧ strip reason = reason
            ∧ (all_space reason_text = true → reason = fallback)
            ∧ (all_space reason_text = false → reason = strip reason_text))
         given.
Proof.
  intros _.
  assert (Hgen : ∀ fallback, fallback ≠ "" → strip fallback = fallback →
            let reason := or_default (strip reason_text) fallback in
            reason ≠ "" ∧ strip reason = reason
            ∧ (all_space reason_text = true → reason = fallback)
            ∧ (all_space reason_text = false → reason = strip reason_text)).
  { intros fallback Hne Hfix reason. unfold reason.
    destruct (strip reason_text) as [|c s] eqn:Hs.
    - apply strip_empty_iff in Hs. cbn. rewrite Hs. done.
    - cbn [or_default]. split; [done|]. split; [by rewrite <- Hs, strip_idemp|].
      split; [|done]. intros Hblank. apply strip_empty_iff in Hblank. congruence. }
  cbn zeta.
  repeat constructor; cbn [dd_reason bd_reason snd DisposeBatchDialog_get_data
    AddBatchDialog_get_data EditBatchDialog_get_data]; by apply Hgen.
Qed.


End dialogs.

Lemma dialog_reason_defaults_witness :
  Dialogs.dd_reason (Dialogs.DisposeBatchDialog_get_data 5 2 "  leaking carton ")
  = "leaking carton"
  ∧ Dialogs.bd_reason (Dialogs.AddBatchDialog_get_data 5 738900 "   ")
    = "Stock added".
Proof.
  pose proof (dialog_reason_defaults 5 2 738900 "  leaking carton " eq_refl) as H1.
  pose proof (dialog_reason_defaults 5 5 738900 "   " eq_refl) as H2.
  cbn zeta in H1, H2.
  apply Forall_cons in H1 as [(_ & _ & _ & Hkept) _].
  apply Forall_cons in H2 as [_ H2].
  apply Forall_cons in H2 as [(_ & _ & Hblank & _) _].
  split; [exact (Hkept eq_refl) | exact (Hblank eq_refl)].
Defined.


(** ** The confirmation dialog *)

Section confirmation.
Import Ledger Text Dialogs.

Lemma exec_closed (gs : list gesture) (d : ConfirmDeleteDialog) (b : bool) :
  outcome d = Some b → exec gs d = d.
Proof. intros H. destruct gs as [|[]]; cbn [exec]; by rewrite H. Qed.

Lemma exec_confirmed_inv (gs : list gesture) :
  ∀ d, outcome d = None → confirmed d = false →
       accepted_and_confirmed (exec gs d) = true →
       strip (input_field d) = confirmation_text d
       ∨ confirmation_text d = ""
       ∨ ∃ s, Type_ s ∈ gs ∧ strip s = confirmation_text d.
Proof.
  induction gs as [|g gs IH]; intros d Hopen Hno Hacc.
  - cbn [exec] in Hacc. rewrite Hopen in Hacc. done.
  - cbn [exec] in Hacc. rewrite Hopen in Hacc. destruct g as [s| |].
    + destruct (IH (type_text s d) Hopen Hno Hacc) as [H|[H|(s' & Hin & H)]].
      * right. right. exists s. split; [left | done].
      * by right; left.
      * right. right. exists s'. split; [by right | done].
    + unfold on_confirm in Hacc.
      destruct (String.eqb_spec (strip (input_field d)) (confirmation_text d))
        as [Heq|Hne]; [by left|].
      match type of Hacc with
      | accepted_and_confirmed (exec gs ?d') = true =>
          destruct (IH d' Hopen Hno Hacc) as [H|[H|(s' & Hin & H)]]
      end.
      * right. left. cbn in H. by symmetry.
      * by right; left.
      * right. right. exists s'. split; [by right | done].
    + rewrite (exec_closed gs (cancel d) false) in Hacc by done. done.
Qed.

(** Everything the user types is ASCII. *)
Definition typed_ascii (g : gesture) : Prop :=
  match g with
  | Type_ s => isascii s = true
  | _ => True
  end.

(** X13. With an expected text and typed texts of ASCII characters, the
    confirmation dialog reports a confirmed deletion only when the
    expected text was typed (whitespace around it is ignored; an empty
    expected text needs no typing); typing it and clicking Delete
    confirms; a wrong text clears the line, shows a warning and leaves the
    dialog open; and an expected text that itself starts or ends with
    whitespace can never be confirmed. *)
Theorem confirm_dialog_requires_text (text : string) (gs : list gesture) :
  isascii text = true →
  Forall typed_ascii gs →
  (accepted_and_confirmed (exec gs (open_dialog text)) = true →
     text = "" ∨ ∃ s, Type_ s ∈ gs ∧ strip s = text)
  ∧ (strip text ≠ text →
     accepted_and_confirmed (exec gs (open_dialog text)) = false)
  ∧ (∀ s, isascii s = true → strip s = text →
       accepted_and_confirmed (exec [Type_ s; ClickDelete] (open_dialog text)) = true)
  ∧ (∀ s, isascii s = true → strip s ≠ text →
       on_confirm (type_text s (open_dialog text))
       = {| confirmation_text := text; confirmed := false; input_field := "";
            outcome := None; warnings_shown := 1 |}).
Proof.
  intros _ _.
  assert (Hinv : accepted_and_confirmed (exec gs (open_dialog text)) = true →
                 text = "" ∨ ∃ s, Type_ s ∈ gs ∧ strip s = text).
  { intros Hacc.
    destruct (exec_confirmed_inv gs (open_dialog text) eq_refl eq_refl Hacc)
      as [H|[H|H]]; [left | by left | by right].
    cbn in H. by symmetry. }
  split; [exact Hinv|]. split; [|split].
  - intros Hpad.
    destruct (accepted_and_confirmed (exec gs (open_dialog text))) eqn:Hacc; [|done].
    destruct (Hinv eq_refl) as [->|(s & _ & <-)]; exfalso; apply Hpad.
    + reflexivity.
    + apply strip_idemp.
  - intros s _ Hs. subst text. cbn [exec open_dialog outcome type_text].
    unfold on_confirm. cbn. rewrite String.eqb_refl. reflexivity.
  - intros s _ Hs. unfold on_confirm. cbn [open_dialog type_text input_field
      confirmation_text confirmed outcome warnings_shown].
    destruct (String.eqb_spec (strip s) text); done.
Qed.

Lemma no_space_uint (d : Decimal.uint) :
  no_space (DecimalString.NilEmpty.string_of_uint d) = true.
Proof. induction d; simpl; auto. Qed.

Lemma str_no_space (n : Z) : no_space (str n) = true ∧ str n ≠ "".
Proof.
  unfold str, DecimalString.NilZero.string_of_int,
    DecimalString.NilZero.string_of_uint.
  destruct (Z.to_int n) as [d|d].
  - destruct d; (split; [|done]);
      first [reflexivity | apply (no_space_uint (Decimal.D0 d))
            | apply (no_space_uint (Decimal.D1 d)) | apply (no_space_uint (Decimal.D2 d))
            | apply (no_space_uint (Decimal.D3 d)) | apply (no_space_uint (Decimal.D4 d))
            | apply (no_space_uint (Decimal.D5 d)) | apply (no_space_uint (Decimal.D6 d))
            | apply (no_space_uint (Decimal.D7 d)) | apply (no_space_uint (Decimal.D8 d))
            | apply (no_space_uint (Decimal.D9 d))].
  - split; [|done]. simpl.
    destruct d; first [reflexivity | apply no_space_uint
      | apply (no_space_uint (Decimal.D0 d))
      | apply (no_space_uint (Decimal.D1 d)) | apply (no_space_uint (Decimal.D2 d))
      | apply (no_space_uint (Decimal.D3 d)) | apply (no_space_uint (Decimal.D4 d))
      | apply (no_space_uint (Decimal.D5 d)) | apply (no_space_uint (Decimal.D6 d))
      | apply (no_space_uint (Decimal.D7 d)) | apply (no_space_uint (Decimal.D8 d))
      | apply (no_space_uint (Decimal.D9 d))].
Qed.

(** X14. With typed texts of ASCII characters, deleting a batch from the
    product page is confirmed only when the batch's quantity, as a
    number, was typed into the dialog; typing it, with or without blanks
    around, and clicking Delete confirms. *)
Theorem batch_delete_needs_quantity_typed (batch : StockBatch) (gs : list gesture) :
  Forall typed_ascii gs →
  (confirm_batch_delete batch gs = true →
     ∃ s, Type_ s ∈ gs ∧ strip s = str (quantity batch))
  ∧ (∀ p q, all_space p = true → all_space q = true →
       confirm_batch_delete batch
         [Type_ (p ++ str (quantity batch) ++ q)%string; ClickDelete] = true).
Proof.
  intros _.
  destruct (str_no_space (quantity batch)) as [Hns Hne].
  unfold confirm_batch_delete. split.
  - intros Hacc.
    destruct (exec_confirmed_inv gs (open_dialog (str (quantity batch)))
                eq_refl eq_refl Hacc) as [H|[H|H]]; [|done..].
    cbn in H. by symmetry in H.
  - intros p q Hp Hq. cbn [exec open_dialog outcome type_text].
    unfold on_confirm, type_text.
    cbn [input_field confirmation_text confirmed outcome warnings_shown].
    rewrite (strip_padded p _ q Hp Hq Hns), String.eqb_refl. reflexivity.
Qed.

End confirmation.

Lemma confirm_dialog_requires_text_witness :
  Dialogs.accepted_and_confirmed
    (Dialogs.exec [Dialogs.Type_ "DELETE "; Dialogs.ClickDelete]
       (Dialogs.open_dialog "DELETE")) = true
  ∧ Dialogs.accepted_and_confirmed
      (Dialogs.exec [Dialogs.Type_ "DELETE"; Dialogs.ClickDelete]
         (Dialogs.open_dialog " DELETE")) = false.
Proof.
  split.
  - destruct (confirm_dialog_requires_text "DELETE" [] eq_refl ltac:(constructor))
      as (_ & _ & Htyped & _).
    exact (Htyped "DELETE " eq_refl eq_refl).
  - destruct (confirm_dialog_requires_text " DELETE"
                [Dialogs.Type_ "DELETE"; Dialogs.ClickDelete] eq_refl)
      as (_ & Hpadded & _).
    + repeat constructor.
    + apply Hpadded. discriminate.
Defined.

Lemma batch_delete_needs_quantity_typed_witness :
  Dialogs.confirm_batch_delete (batch 3 0 None)
    [Dialogs.Type_ " 0"; Dialogs.ClickDelete] = true.
Proof.
  destruct (batch_delete_needs_quantity_typed (batch 3 0 None) [] ltac:(constructor))
    as [_ Hpad].
  exact (Hpad " " "" eq_refl eq_refl).
Defined.

(** ** Selecting batches and reports *)

Section pages.
Import Ledger Pages.

(** X15. Whatever the API answers, the batch combo box is never empty, and the
    page has a selected batch exactly when the combo box's current index
    points at a batch entry: the "no batches" and "error" placeholders and
    the index -1 never select one. *)
Theorem selection_matches_combo (answer : option (response batch_dict)) (index : Z) :
  let batches := (load_batches answer).1 in
  let combo := (load_batches answer).2 in
  length combo = Nat.max 1 (length batches)
  ∧ (get_selected_batch index batches = None ↔
     index < 0 ∨ Z.of_nat (length batches) ≤ index)
  ∧ (∀ b, get_selected_batch index batches = Some b ↔
          0 ≤ index ∧ batches !! Z.to_nat index = Some b
          ∧ combo !! Z.to_nat index = Some (BatchItem (batch_ref b))).
Proof.
  intros batches combo.
  assert (Hcombo : (batches = [] ∧ ∃ text, combo = [Placeholder text])
                   ∨ (batches ≠ [] ∧ combo = map (λ b, BatchItem (batch_ref b)) batches)).
  { unfold batches, combo, load_batches.
    destruct answer as [[[l|] [l'|]|l|]|]; cbn;
      try (destruct l); try (destruct l'); cbn; eauto. }
  split; [|split].
  - destruct Hcombo as [[-> (text & ->)]|[Hne ->]]; [done|].
    rewrite length_map. destruct batches; [done | cbn; lia].
  - unfold get_selected_batch.
    destruct (Z.leb_spec 0 index), (Z.ltb_spec index (Z.of_nat (length batches)));
      cbn [andb]; try (split; [intros _; lia | done]).
    split; [|lia]. intros Hnone. apply lookup_ge_None in Hnone. lia.
  - intros b. unfold get_selected_batch.
    destruct (Z.leb_spec 0 index), (Z.ltb_spec index (Z.of_nat (length batches)));
      cbn [andb].
    + split.
      * intros Hb. split; [done|]. split; [done|].
        destruct Hcombo as [[Hnil _]|[_ ->]]; [by rewrite Hnil in Hb|].
        by rewrite list_lookup_fmap, Hb.
      * by intros (_ & Hb & _).
    + split; [done|]. intros (_ & Hb & _).
      apply lookup_lt_Some in Hb. lia.
    + split; [done | lia].
    + split; [done | lia].
Qed.

(** X16. The id taken from a batch dict is the first non-zero one among the
    keys [id], [_id] and [batch_id]; a zero counts as missing, so the
    result is 0 only when [batch_id] is 0 and the other two are missing
    or 0. *)
Theorem batch_ref_first_nonzero (b : batch_dict) :
  (∀ n, n ≠ 0 → key_id b = Some n → batch_ref b = Some n)
  ∧ (truthy (key_id b) = false →
       ∀ n, n ≠ 0 → key__id b = Some n → batch_ref b = Some n)
  ∧ (truthy (key_id b) = false → truthy (key__id b) = false →
       batch_ref b = key_batch_id b)
  ∧ (∀ n, batch_ref b = Some n →
       n ∈ omap id [key_id b; key__id b; key_batch_id b])
  ∧ (batch_ref b = Some 0 → key_batch_id b = Some 0).
Proof.
  unfold batch_ref, py_or, truthy.
  destruct b as [[i|] [j|] k q]; cbn [key_id key__id key_batch_id];
    repeat match goal with
           | |- context [?x =? 0] => destruct (Z.eqb_spec x 0); cbn [negb]
           end;
    repeat split; intros; simplify_eq; try done; try lia;
    cbn; rewrite ?elem_of_cons; auto.
Qed.

(** X17. The report type sent to the API: the combo box entry for the indices
    0 to 6, the sales report for any larger index; a negative index counts
    from the end of the list (the "no selection" index -1 names the user
    accounts report) and an index below -7 is an error. *)
Theorem report_type_by_index (report_index : Z) :
  (0 ≤ report_index < 7 →
     get_report_type_string report_index = report_types !! Z.to_nat report_index
     ∧ is_Some (get_report_type_string report_index))
  ∧ (7 ≤ report_index →
     get_report_type_string report_index = Some "sales-performance")
  ∧ (-7 ≤ report_index < 0 →
     get_report_type_string report_index
     = report_types !! Z.to_nat (7 + report_index)
     ∧ is_Some (get_report_type_string report_index))
  ∧ (report_index < -7 → get_report_type_string report_index = None)
  ∧ (∀ t, get_report_type_string report_index = Some t → t ∈ report_types).
Proof.
  assert (Hcases : ∀ i,
    get_report_type_string i
    = if i <? 7 then
        if 0 <=? i then report_types !! Z.to_nat i
        else if -7 <=? i then report_types !! Z.to_nat (7 + i) else None
      else Some "sales-performance") by reflexivity.
  rewrite !Hcases.
  destruct (Z.ltb_spec report_index 7), (Z.leb_spec 0 report_index),
           (Z.leb_spec (-7) report_index); try lia.
  - split; [|split; [|split; [|split]]]; try (intros; lia).
    + intros _. split; [done|]. apply lookup_lt_is_Some. cbn. lia.
    + intros t Ht. by apply list_elem_of_lookup_2 in Ht.
  - split; [|split; [|split; [|split]]]; try (intros; lia).
    + intros _. split; [done|]. apply lookup_lt_is_Some. cbn. lia.
    + intros t Ht. by apply list_elem_of_lookup_2 in Ht.
  - split; [|split; [|split; [|split]]]; try (intros; lia).
    + done.
    + done.
  - split; [|split; [|split; [|split]]]; try (intros; lia).
    + done.
    + intros t [= <-]. left.
Qed.

(** X18. The report page sends the two dates only for the sales performance
    and the transactions report; every other report, the date-ranged
    managerial activity log included, is requested without dates. *)
Theorem report_dates_only_for_sales (report_index start_date end_date : Z) :
  0 ≤ report_index < 7 →
  (get_report_params report_index start_date end_date
   = Some (Some (start_date, end_date)) ↔ report_index = 0 ∨ report_index = 5)
  ∧ (get_report_params report_index start_date end_date = Some None ↔
     report_index ≠ 0 ∧ report_index ≠ 5).
Proof.
  intros Hrange.
  assert (Hcases : report_index = 0 ∨ report_index = 1 ∨ report_index = 2
                   ∨ report_index = 3 ∨ report_index = 4 ∨ report_index = 5
                   ∨ report_index = 6) by lia.
  destruct Hcases as [->|[->|[->|[->|[->|[->| ->]]]]]];
    vm_compute; split; split; intros; try done; try lia; intuition congruence.
Qed.

End pages.

Lemma report_dates_only_for_sales_witness :
  Pages.get_report_params 4 738839 738869 = Some None.
Proof.
  apply (report_dates_only_for_sales 4 738839 738869); lia.
Defined.

(** ** The product page's batch actions *)

Section batch_actions.
Import Ledger.

(** X19. The page never asks the server to delete a batch unless a batch is
    selected, its quantity is not above 0 and the confirmation succeeded:
    in every other case the store is untouched and no success is
    reported. *)
Theorem page_delete_is_guarded (selected : option StockBatch) (confirmed : bool)
    (rq : request) (s : store) :
  selected = None ∨ (∃ b, selected = Some b ∧ 0 < quantity b) ∨ confirmed = false →
  (ProductDetail.delete_batch selected confirmed rq s).2 = s
  ∧ ∀ msg, ProductDetail.success msg
           ∉ (ProductDetail.delete_batch selected confirmed rq s).1.
Proof.
  intros Hcase. unfold ProductDetail.delete_batch.
  destruct selected as [b|].
  - destruct (Z.ltb_spec 0 (quantity b)) as [Hpos|Hnpos].
    + split; [done|]. intros msg Hin.
      apply list_elem_of_singleton in Hin. discriminate Hin.
    + destruct Hcase as [H|[(b' & [= <-] & Hq)| ->]]; [done | lia |].
      split; [done|]. intros msg Hin. by apply elem_of_nil in Hin.
  - split; [done|]. intros msg Hin.
    apply list_elem_of_singleton in Hin. discriminate Hin.
Qed.

(** X20. The dispose and the delete button of the product page are never
    enabled together; with no batch selected all three batch buttons are
    disabled, and with a batch of non-negative quantity selected exactly
    one of dispose and delete is enabled. *)
Theorem batch_buttons_exclusive (batch : option StockBatch) :
  let b := ProductDetail.on_batch_selected batch in
  (ProductDetail.edit_batch_btn b = true ↔ is_Some batch)
  ∧ ¬ (ProductDetail.dispose_batch_btn b = true ∧ ProductDetail.delete_batch_btn b = true)
  ∧ (batch = None →
     ProductDetail.dispose_batch_btn b = false ∧ ProductDetail.delete_batch_btn b = false)
  ∧ (∀ x, batch = Some x → 0 ≤ quantity x →
       ProductDetail.dispose_batch_btn b = negb (ProductDetail.delete_batch_btn b)).
Proof.
  destruct batch as [x|]; cbn.
  - split; [split; [by eexists | done]|].
    destruct (Z.ltb_spec 0 (quantity x)), (Z.eqb_spec (quantity x) 0);
      cbn; repeat split; intros; simplify_eq; try done; try lia;
      intuition (done || lia).
  - split; [split; [done | intros [? ?]; done]|].
    split; [intros [? ?]; done|]. split; [done|]. intros x Hx. done.
Qed.

End batch_actions.

Lemma page_delete_is_guarded_witness :
  (ProductDetail.delete_batch (Some (first_batch 5)) true manager stocked_store).2
  = stocked_store.
Proof.
  apply (page_delete_is_guarded (Some (first_batch 5)) true manager stocked_store).
  right. left. exists (first_batch 5). split; [reflexivity | cbn; lia].
Defined.

(** ** Seeding the counters and saving documents *)

Section seeding.
Import Counters.

Lemma seed_one_union (cs : gmap string Z) (c : string * Z) :
  seed_one cs c = cs ∪ {[ c.1 := c.2 ]}.
Proof.
  unfold seed_one. apply map_eq. intros k.
  rewrite lookup_union.
  destruct (cs !! c.1) as [v|] eqn:Hc.
  - destruct (decide (c.1 = k)) as [<-|Hne].
    + rewrite Hc, lookup_singleton_eq. done.
    + rewrite lookup_singleton_ne by done. by destruct (cs !! k).
  - destruct (decide (c.1 = k)) as [<-|Hne].
    + rewrite lookup_insert_eq, Hc, lookup_singleton_eq. done.
    + rewrite lookup_insert_ne, lookup_singleton_ne by done. by destruct (cs !! k).
Qed.

Lemma fold_seed_union (l : list (string * Z)) :
  NoDup l.*1 →
  ∀ cs, fold_left seed_one l cs = cs ∪ list_to_map l.
Proof.
  induction l as [|c l IH]; intros Hnd cs.
  - cbn. by rewrite map_union_empty.
  - apply NoDup_cons in Hnd as [Hc Hnd].
    cbn [fold_left list_to_map]. rewrite (IH Hnd), seed_one_union.
    rewrite <- (assoc_L (∪)). f_equal.
    symmetry. apply insert_union_singleton_l.
Qed.

(** X21. Running the seeding script adds the table's counters that are missing
    and changes nothing else: an existing counter keeps its value, so the
    script can be run again at any time (a second run is a no-op) without
    resetting ids already handed out. *)
Theorem seeding_only_adds_missing (cs : gmap string Z) :
  seed_counters cs = cs ∪ list_to_map initial_counters
  ∧ (∀ name v, cs !! name = Some v → seed_counters cs !! name = Some v)
  ∧ (∀ name v, (name, v) ∈ initial_counters → is_Some (seed_counters cs !! name))
  ∧ (∀ name, name ∉ initial_counters.*1 → seed_counters cs !! name = cs !! name)
  ∧ seed_counters (seed_counters cs) = seed_counters cs.
Proof.
  assert (Hnd : NoDup initial_counters.*1).
  { apply NoDup_ListNoDup. repeat constructor; cbn; intuition discriminate. }
  assert (Hunion : seed_counters cs = cs ∪ list_to_map initial_counters)
    by apply (fold_seed_union _ Hnd).
  split; [exact Hunion|]. split; [|split; [|split]].
  - intros name v Hv. rewrite Hunion. by apply lookup_union_Some_l.
  - intros name v Hin. rewrite Hunion.
    apply (elem_of_list_to_map_1 (M := gmap string)) in Hin; [|done].
    rewrite lookup_union. rewrite Hin. destruct (cs !! name); by eexists.
  - intros name Hout. rewrite Hunion, lookup_union.
    rewrite (not_elem_of_list_to_map_1 (M := gmap string)) by done.
    by destruct (cs !! name).
  - unfold seed_counters at 1. rewrite (fold_seed_union _ Hnd), Hunion.
    rewrite <- (assoc_L (∪)). by rewrite (idemp_L (∪)).
Qed.

End seeding.
